(** * HaloWatcher: change detection over announcements, grades and inbox posts

    A shallow embedding of [HaloWatcher] (the class holding
    [#locateDifferenceInArrays], [#watchForAnnouncements], [#watchForGrades]
    and [#watchForInboxMessages]) and of the collaborators it calls, followed
    by the properties of its specification.

    JavaScript values are modelled as the code uses them: arrays as lists,
    ids as strings, [null] as [None], an exception as a [Thrown] completion,
    the caches as finite maps, and every remote call, clock read or directory
    lookup as a question asked to an environment. *)

From Stdlib Require Import ZArith Lia.
From stdpp Require Import base option list strings gmap.

Local Open Scope string_scope.
Local Open Scope list_scope.

(** ** DiffEngine: [#locateDifferenceInArrays] *)

Section DiffEngine.
Context {A : Type} (id_of : A -> string).

(** [new Set(a2.map((o) => o.id))] *)
Definition id_set (a2 : list A) : gset string := list_to_set (map id_of a2).

(** [a1.map((o) => o.id).filter(function (n) { return !this.has(n); }, new Set(...))] *)
Definition id_array (a1 a2 : list A) : list string :=
  filter (fun n => n ∉ id_set a2) (map id_of a1).

(** [a1.find((o) => o.id == id)]: ids are strings, on which [==] is equality. *)
Definition find_by_id (a1 : list A) (id : string) : option A :=
  List.find (fun o => bool_decide (id_of o = id)) a1.

(** One turn of [for (const id of id_array)]:
    [!!found_obj && diff_array.push(found_obj)] (an object is truthy,
    [undefined] is not). *)
Definition push_found (a1 : list A) (diff_array : list A) (id : string) : list A :=
  match find_by_id a1 id with
  | Some found_obj => diff_array ++ [found_obj]
  | None => diff_array
  end.

Definition locateDifferenceInArrays (a1 a2 : list A) : list A :=
  fold_left (push_found a1) (id_array a1 a2) [].

(** The items of [a1] whose id is not an id of [a2], in the order of [a1]. *)
Definition new_only (a1 a2 : list A) : list A :=
  filter (fun o => id_of o ∉ id_set a2) a1.

End DiffEngine.

(** ** Data model *)

(** A course of [Firebase.getActiveClasses()]: the two fields the watchers read. *)
Record Course := { courseCode : string; slugId : string }.

(** The credential object of [Firebase.getUserCookie]; its content is opaque here. *)
Definition Cookie : Type := string.

(** A date field of a remote object as JSON delivers it. *)
Inductive JsDate :=
| DateUndefined
| DateNull
| DateString (s : string).

Record Announcement := {
  ann_id : string;
  publishDate : JsDate;
  startDate : JsDate;
  ann_title : string;
}.

(** An ISO-8601 date-time string: a string with at least one character. *)
Inductive Timestamp := IsoTimestamp (c : Ascii.ascii) (rest : string).

Definition timestamp_string (t : Timestamp) : string :=
  match t with IsoTimestamp c rest => String c rest end.

Record Grade := {
  grade_id : string;
  status : string;
  userLastSeenDate : option Timestamp;
  assessment_id : string;
}.

Record Post := {
  post_id : string;
  isRead : bool;
  post_content : string;
}.

(** An element of [Halo.getUserInbox]: [{ forumId, unreadCount }]. *)
Record Forum := { forumId : string; unreadCount : Z }.

(** [metadata] handed to [Halo.getClassAnnouncements]. *)
Record AnnouncementMetadata := { am_courseCode : string; am_slugId : string }.

(** [metadata] handed to [Halo.getGradeFeedback]; [finalGrade] is kept opaque. *)
Record GradeMetadata := {
  gm_courseCode : string;
  gm_finalGrade : string;
  gm_uid : string;
  gm_slugId : string;
}.

(** What [Halo.getGradeFeedback] resolves to: the remote feedback and the
    metadata it was asked to inject. *)
Record Feedback := { fb_assessment : string; fb_body : string; fb_metadata : GradeMetadata }.

(** [this.emit(name, payload)] *)
Inductive Event :=
| EvAnnouncement (a : Announcement)
| EvGrade (f : Feedback)
| EvInboxMessage (p : Post) (uid : string).

(** A line of the [Logger], by level and subject. *)
Inductive LogEntry :=
| LogDebug (subject : string)
| LogUnauth (subject : string)
| LogError (subject : string).

(** What a [catch (e)] tells apart. It tests [e.code === 401] first; for any
    other error it builds a log line that renders [e], with [`${e}`] and with
    [JSON.stringify(e)], and rendering may itself throw. [Err401] is an error
    whose code is 401; [ErrOther] an error of another kind that both
    renderings accept (an [Error], a [TypeError]); [ErrNoString] one that
    [JSON.stringify] accepts and [`${e}`] does not (an object without a
    conversion to a string); [ErrCircular] one that [JSON.stringify] does not
    accept (an object that refers to itself). A rejection with [null] or
    [undefined], whose [e.code] cannot be read, leaves every [catch] block
    with a TypeError and nothing logged, as [ErrCircular] does. *)
Inductive Exn := Err401 | ErrOther | ErrNoString | ErrCircular.

(** [`${e}`] throws a TypeError. *)
Definition template_throws (e : Exn) : bool :=
  match e with
  | ErrNoString => true
  | _ => false
  end.

(** [JSON.stringify(e)] throws a TypeError. *)
Definition stringify_throws (e : Exn) : bool :=
  match e with
  | ErrCircular => true
  | _ => false
  end.

Inductive Completion (A : Type) :=
| Normal (a : A)
| Thrown (e : Exn).
Arguments Normal {A} a.
Arguments Thrown {A} e.

(** ** Collaborators

    Every remote call, directory lookup and clock read is a question to the
    environment. A question carries the number of questions asked before it,
    so that the same call may answer differently each time. *)
Inductive Call :=
| CallActiveClasses
| CallActiveUsersInClass (class_id : string)
| CallAllActiveUsers
| CallUserCookie (uid : string)
| CallClassAnnouncements (class_id : string) (cookie : Cookie)
| CallAllGrades (class_slug_id : string) (cookie : Cookie)
| CallUserId (cookie : Cookie)
| CallGradeFeedback (cookie : Cookie) (assessment_id : string) (halo_uid : string)
| CallUserInbox (cookie : Cookie)
| CallPostsForInboxForum (cookie : Cookie) (forum_id : string)
| CallClock.

(** The [Firebase] and [Halo] services as the watchers see them. A remote
    call resolves ([Normal]) or rejects: [Thrown Err401] is
    [throw { code: 401, cookie }], [Thrown ErrOther] any other exception that
    can be rendered, [Thrown ErrNoString] and [Thrown ErrCircular] one that
    cannot.
    [getActiveUsersInClass] is [Object.keys(...)] of a local store: always an
    array. [getUserCookie] resolves to the cookie or to [null]. *)
Record Env := {
  getActiveClasses : nat -> Completion (list (string * Course));
  getActiveUsersInClass : nat -> string -> list string;
  getAllActiveUsers : nat -> Completion (list string);
  getUserCookie : nat -> string -> Completion (option Cookie);
  getClassAnnouncements :
    nat -> string -> Cookie -> AnnouncementMetadata -> Completion (list Announcement);
  getAllGrades : nat -> string -> Cookie -> string -> Completion (list Grade * string);
  getUserId : nat -> Cookie -> Completion string;
  getGradeFeedback : nat -> Cookie -> string -> string -> GradeMetadata -> Completion Feedback;
  getUserInbox : nat -> Cookie -> Completion (list Forum);
  getPostsForInboxForum : nat -> Cookie -> string -> Completion (list Post);
  (** [new Date().getTime()], in milliseconds since the epoch *)
  clock : nat -> Z;
  (** the time value of [new Date(s)] for a string [s]; [None] is [NaN] *)
  Date_parse : string -> option Z;
}.

(** ** Watcher state and its monad *)

Section Monad.
Context {K I : Type} `{Countable K}.

(** What one watcher works on: the cache of its resource type
    ([CLASS_ANNOUNCEMENTS], [USER_GRADES] or [USER_INBOX]; [store]: key to
    array or [null], absent when never populated; [disk]: the
    [writeCacheFile] calls so far, oldest first), the events emitted, the
    uids reported through [handle401], the log, and the questions asked to
    the environment so far. *)
Record State := mkState {
  store : gmap K (option (list I));
  disk : list (string * option (list I));
  emitted : list Event;
  reported : list string;
  logged : list LogEntry;
  asked : list Call;
}.

Definition M (A : Type) : Type := State -> State * Completion A.

Definition ret {A} (a : A) : M A := fun st => (st, Normal a).

Definition bind {A B} (m : M A) (k : A -> M B) : M B :=
  fun st =>
    match m st with
    | (st', Normal a) => k a st'
    | (st', Thrown e) => (st', Thrown e)
    end.

Definition throw {A} (e : Exn) : M A := fun st => (st, Thrown e).

(** [try { m } catch (e) { handler e }] *)
Definition try_catch {A} (m : M A) (handler : Exn -> M A) : M A :=
  fun st =>
    match m st with
    | (st', Normal a) => (st', Normal a)
    | (st', Thrown e) => handler e st'
    end.

Definition gets {A} (f : State -> A) : M A := fun st => (st, Normal (f st)).

Definition modify (f : State -> State) : M unit := fun st => (f st, Normal tt).

Definition record_call (c : Call) (st : State) : State :=
  mkState (store st) (disk st) (emitted st) (reported st) (logged st) (asked st ++ [c]).

(** A synchronous question to the environment. *)
Definition ask {A} (c : Call) (q : nat -> A) : M A :=
  fun st => (record_call c st, Normal (q (length (asked st)))).

(** [await q(...)]: the promise resolves or rejects. *)
Definition await {A} (c : Call) (q : nat -> Completion A) : M A :=
  fun st => (record_call c st, q (length (asked st))).

(** [for (const x of xs) body(x)]: an exception leaving the body ends the loop. *)
Fixpoint for_of {X} (xs : list X) (body : X -> M unit) : M unit :=
  match xs with
  | [] => ret tt
  | x :: rest => bind (body x) (fun _ => for_of rest body)
  end.

(** [this.emit(...)] *)
Definition emit (ev : Event) : M unit :=
  modify (fun st =>
    mkState (store st) (disk st) (emitted st ++ [ev]) (reported st) (logged st) (asked st)).

(** [Logger.debug], [Logger.unauth], [Logger.error] *)
Definition log (l : LogEntry) : M unit :=
  modify (fun st =>
    mkState (store st) (disk st) (emitted st) (reported st) (logged st ++ [l]) (asked st)).

(** [Logger.error(`... ${e} ${JSON.stringify(e)}`)]: the line is built before
    the logger is called, so a TypeError while rendering [e] leaves the
    [catch] block with nothing logged. *)
Definition log_error (subject : string) (e : Exn) : M unit :=
  if template_throws e || stringify_throws e then throw ErrOther
  else log (LogError subject).

(** [Logger.error(`...: ${JSON.stringify(e)}`)] *)
Definition log_error_json (subject : string) (e : Exn) : M unit :=
  if stringify_throws e then throw ErrOther else log (LogError subject).

(** Modelled from the spec: [handle401] is not among the sources; it is the
    CredentialInvalidationSink, [report(userId, reason)], called on
    Unauthorized. It records the uid and does not throw. *)
Definition handle401 (uid : string) : M unit :=
  modify (fun st =>
    mkState (store st) (disk st) (emitted st) (reported st ++ [uid]) (logged st) (asked st)).

(** Modelled from the spec: the cache objects of [../caches] are not among
    the sources. [get(key)] returns the stored value, [undefined] when the
    key was never populated; [get(key) || null] is then the stored array or
    [null]. *)
Definition get_or_null (k : K) (st : State) : option (list I) :=
  match store st !! k with
  | Some (Some l) => Some l
  | Some None | None => None
  end.

(** Modelled from the spec: [get(key, dflt)] returns [dflt] when the key
    was never populated, and the stored value otherwise. *)
Definition get_default (k : K) (dflt : option (list I)) (st : State) : option (list I) :=
  match store st !! k with
  | Some v => v
  | None => dflt
  end.

(** Modelled from the spec: [set(key, snapshot)] replaces the in-memory
    value unconditionally. *)
Definition set (k : K) (v : option (list I)) : M unit :=
  modify (fun st =>
    mkState (<[k := v]> (store st)) (disk st) (emitted st) (reported st) (logged st) (asked st)).

(** Modelled from the spec: [writeCacheFile({ filepath, data })] is
    [persist]: it writes the snapshot under the path; its failures are
    logged and swallowed, so it never throws. *)
Definition writeCacheFile (filepath : string) (data : option (list I)) : M unit :=
  modify (fun st =>
    mkState (store st) (disk st ++ [(filepath, data)]) (emitted st) (reported st)
            (logged st) (asked st)).
End Monad.

Arguments State K I {_ _}.
Arguments M K I {_ _} A.

Notation "x <~ m ;; k" := (bind m (fun x => k))
  (at level 100, m at next level, right associativity).
Notation "m ;;; k" := (bind m (fun _ => k))
  (at level 100, right associativity).

(** ** RecencyFilter: [isRecentAnnouncement] *)

(** [new Date(d).getTime()]: [undefined] gives an invalid date ([NaN]),
    [null] converts to the number 0 and so to the epoch, a string is parsed. *)
Definition getTime (parse : string -> option Z) (d : JsDate) : option Z :=
  match d with
  | DateUndefined => None
  | DateNull => Some 0%Z
  | DateString s => parse s
  end.

(** [t > threshold] on numbers: false when [t] is [NaN]. *)
Definition js_gt (t : option Z) (threshold : Z) : bool :=
  match t with
  | Some x => (threshold <? x)%Z
  | None => false
  end.

(** The body of [isRecentAnnouncement], [now] being [new Date().getTime()]. *)
Definition isRecentAnnouncement_at (parse : string -> option Z) (now : Z)
    (announcement : Announcement) : bool :=
  let publishTime := getTime parse (publishDate announcement) in
  let startTime := getTime parse (startDate announcement) in
  let threshold := (now - 1000 * 60 * 60 * 48)%Z in
  js_gt publishTime threshold || js_gt startTime threshold.

(** ** Watcher: announcements *)

Section Announcements.
Variable env : Env.

Abbreviation MA := (M string Announcement).

Definition isRecentAnnouncement (announcement : Announcement) : MA bool :=
  now <~ ask CallClock (clock env) ;;
  ret (isRecentAnnouncement_at (Date_parse env) now announcement).

(** One turn of [for (const uid of active_users) try { ... } catch (e) { ... }]
    in [getClassAnnouncementsSafe]: [Some] is the [return announcements],
    [None] lets the loop go on. The fetch resolves to an array, which is
    truthy. An exception of the [catch] block itself leaves the function. *)
Definition tryUser (class_id : string) (metadata : AnnouncementMetadata)
    (uid : string) : MA (option (list Announcement)) :=
  try_catch
    (cookie <~ await (CallUserCookie uid) (fun n => getUserCookie env n uid) ;;
     match cookie with
     | None => ret None
     | Some cookie =>
         announcements <~
           await (CallClassAnnouncements class_id cookie)
               (fun n => getClassAnnouncements env n class_id cookie metadata) ;;
         ret (Some announcements)
     end)
    (fun e =>
       match e with
       | Err401 => handle401 uid ;;; ret None
       | _ => log_error uid e ;;; ret None
       end).

Fixpoint getClassAnnouncementsSafe (class_id : string)
    (active_users : list string) (metadata : AnnouncementMetadata)
    : MA (option (list Announcement)) :=
  match active_users with
  | [] => ret None
  | uid :: rest =>
      r <~ tryUser class_id metadata uid ;;
      match r with
      | Some announcements => ret (Some announcements)
      | None => getClassAnnouncementsSafe class_id rest metadata
      end
  end.

(** [isRecentAnnouncement(announcement) && this.emit('announcement', announcement)] *)
Definition emitAnnouncement (announcement : Announcement) : MA unit :=
  recent <~ isRecentAnnouncement announcement ;;
  if recent then emit (EvAnnouncement announcement) else ret tt.

(** The [try] block for one entry of [Object.entries(COURSES)]. *)
Definition announcementsBody (class_id : string) (course : Course) : MA unit :=
  active_users <~ ask (CallActiveUsersInClass class_id)
                      (fun n => getActiveUsersInClass env n class_id) ;;
  if Nat.eqb (length active_users) 0 then ret tt else
  old_announcements <~ gets (get_or_null class_id) ;;
  fetched <~ getClassAnnouncementsSafe class_id active_users
               {| am_courseCode := courseCode course; am_slugId := slugId course |} ;;
  let new_announcements :=
    match fetched with
    | Some l => Some l
    | None => old_announcements
    end in
  set class_id new_announcements ;;;
  match old_announcements, new_announcements with
  | None, _ => writeCacheFile class_id new_announcements
  | Some old_l, Some new_l =>
      if Nat.eqb (length new_l) (length old_l) then ret tt else
      log (LogDebug (courseCode course)) ;;;
      writeCacheFile class_id new_announcements ;;;
      for_of (locateDifferenceInArrays ann_id new_l old_l) emitAnnouncement
  | Some _, None => throw ErrOther (* [null.length] *)
  end.

Definition announcementsTarget (entry : string * Course) : MA unit :=
  let '(class_id, course) := entry in
  try_catch (announcementsBody class_id course)
    (fun e =>
       match e with
       | Err401 => log (LogUnauth (courseCode course))
       | _ => log_error (courseCode course) e
       end).

Definition watchForAnnouncements : MA unit :=
  COURSES <~ await CallActiveClasses (getActiveClasses env) ;;
  for_of COURSES announcementsTarget.
End Announcements.

(** ** Watcher: grades *)

(** [!!x] for a value that is [null] or a string. *)
Definition truthy (x : option string) : bool :=
  match x with
  | None => false
  | Some s => negb (bool_decide (s = ""))
  end.

Section Grades.
Variable env : Env.

Abbreviation MG := (M (string * string) Grade).

(** One turn of [for (const grade of this.#locateDifferenceInArrays(...))]. *)
Definition emitGrade (course : Course) (uid : string) (cookie : Cookie)
    (finalGrade : string) (grade : Grade) : MG unit :=
  if truthy (timestamp_string <$> userLastSeenDate grade) then ret tt else
  halo_uid <~ await (CallUserId cookie) (fun n => getUserId env n cookie) ;;
  feedback <~ await (CallGradeFeedback cookie (assessment_id grade) halo_uid) (fun n =>
    getGradeFeedback env n cookie (assessment_id grade) halo_uid
      {| gm_courseCode := courseCode course; gm_finalGrade := finalGrade;
         gm_uid := uid; gm_slugId := slugId course |}) ;;
  emit (EvGrade feedback).

Definition is_published (grade : Grade) : bool :=
  bool_decide (status grade = "PUBLISHED").

(** The [try] block for one course and one of its users. *)
Definition gradesBody (course_id : string) (course : Course) (uid : string) : MG unit :=
  cookie <~ await (CallUserCookie uid) (fun n => getUserCookie env n uid) ;;
  match cookie with
  | None => ret tt
  | Some cookie =>
      old_grades <~ gets (get_default (course_id, uid) None) ;;
      fetched <~ await (CallAllGrades (slugId course) cookie) (fun n =>
        getAllGrades env n (slugId course) cookie (courseCode course)) ;;
      let '(grades, finalGrade) := fetched in
      let new_grades := List.filter is_published grades in
      set (course_id, uid) (Some new_grades) ;;;
      match old_grades with
      | None =>
          writeCacheFile (course_id +:+ "/" +:+ uid +:+ ".json") (Some new_grades)
      | Some old_l =>
          if Nat.eqb (length new_grades) (length old_l) then ret tt else
          writeCacheFile (course_id +:+ "/" +:+ uid +:+ ".json") (Some new_grades) ;;;
          for_of (locateDifferenceInArrays grade_id new_grades old_l)
                 (emitGrade course uid cookie finalGrade)
      end
  end.

Definition gradesTarget (course_id : string) (course : Course) (uid : string) : MG unit :=
  try_catch (gradesBody course_id course uid)
    (fun e =>
       match e with
       | Err401 => handle401 uid
       | _ => log_error uid e
       end).

Definition gradesCourse (entry : string * Course) : MG unit :=
  let '(course_id, course) := entry in
  users <~ ask (CallActiveUsersInClass course_id)
               (fun n => getActiveUsersInClass env n course_id) ;;
  for_of users (gradesTarget course_id course).

Definition watchForGrades : MG unit :=
  COURSES <~ await CallActiveClasses (getActiveClasses env) ;;
  for_of COURSES gradesCourse.
End Grades.

(** ** Watcher: inbox messages *)

Section Inbox.
Variable env : Env.

Abbreviation MI := (M (string * string) Post).

Definition is_unread (post : Post) : bool := negb (isRead post).

(** [get([uid, forumId], []).filter(({ isRead }) => !isRead).length];
    [.filter] on a stored [null] is a TypeError. *)
Definition getUnreadMessagesCount (uid forum_id : string) : MI nat :=
  cached <~ gets (get_default (uid, forum_id) (Some [])) ;;
  match cached with
  | Some posts => ret (length (List.filter is_unread posts))
  | None => throw ErrOther
  end.

(** [old_inbox_posts !== null &&
     (!unreadCount || unreadCount === getUnreadMessagesCount({ uid, forumId }))] *)
Definition skipForum (uid : string) (forum : Forum)
    (old_inbox_posts : option (list Post)) : MI bool :=
  match old_inbox_posts with
  | None => ret false
  | Some _ =>
      if (unreadCount forum =? 0)%Z then ret true else
      unread_cached <~ getUnreadMessagesCount uid (forumId forum) ;;
      ret (unreadCount forum =? Z.of_nat unread_cached)%Z
  end.

(** One turn of [for (const post of this.#locateDifferenceInArrays(...))]. *)
Definition emitPost (uid : string) (post : Post) : MI unit :=
  if isRead post then ret tt else emit (EvInboxMessage post uid).

(** One turn of [for (const { forumId, unreadCount } of await Halo.getUserInbox(...))]. *)
Definition inboxForum (uid : string) (cookie : Cookie) (forum : Forum) : MI unit :=
  old_inbox_posts <~ gets (get_default (uid, forumId forum) None) ;;
  skip <~ skipForum uid forum old_inbox_posts ;;
  if skip then ret tt else
  new_inbox_posts <~ await (CallPostsForInboxForum cookie (forumId forum))
      (fun n => getPostsForInboxForum env n cookie (forumId forum)) ;;
  set (uid, forumId forum) (Some new_inbox_posts) ;;;
  match old_inbox_posts with
  | None =>
      writeCacheFile (uid +:+ "/" +:+ forumId forum +:+ ".json") (Some new_inbox_posts)
  | Some old_l =>
      if Nat.eqb (length new_inbox_posts) (length old_l) then ret tt else
      log (LogDebug uid) ;;;
      writeCacheFile (uid +:+ "/" +:+ forumId forum +:+ ".json") (Some new_inbox_posts) ;;;
      for_of (locateDifferenceInArrays post_id new_inbox_posts old_l) (emitPost uid)
  end.

(** The [try] block for one active user. *)
Definition inboxBody (uid : string) : MI unit :=
  cookie <~ await (CallUserCookie uid) (fun n => getUserCookie env n uid) ;;
  match cookie with
  | None => ret tt
  | Some cookie =>
      forums <~ await (CallUserInbox cookie) (fun n => getUserInbox env n cookie) ;;
      for_of forums (inboxForum uid cookie)
  end.

Definition inboxUser (uid : string) : MI unit :=
  try_catch (inboxBody uid)
    (fun e =>
       match e with
       | Err401 => handle401 uid
       | _ => log_error_json uid e
       end).

Definition watchForInboxMessages : MI unit :=
  ACTIVE_USERS <~ await CallAllActiveUsers (getAllActiveUsers env) ;;
  for_of ACTIVE_USERS inboxUser.
End Inbox.

(** * Properties *)

(** ** DiffEngine: what [#locateDifferenceInArrays] returns *)

Section DiffEngineFacts.
Context {A : Type} (id_of : A -> string).

Lemma elem_of_id_set (a2 : list A) (n : string) :
  n ∈ id_set id_of a2 <-> exists o, o ∈ a2 /\ id_of o = n.
Proof.
  unfold id_set. rewrite elem_of_list_to_set, list_elem_of_fmap.
  split; intros (o & H1 & H2); exists o; split; auto.
Qed.

Lemma push_found_fold (a1 : list A) (ids : list string) (acc : list A) :
  fold_left (push_found id_of a1) ids acc = acc ++ omap (find_by_id id_of a1) ids.
Proof.
  revert acc. induction ids as [|n ids IH]; intros acc; simpl.
  - now rewrite app_nil_r.
  - rewrite IH. unfold push_found.
    destruct (find_by_id id_of a1 n); simpl; [now rewrite <- app_assoc | reflexivity].
Qed.

(** Whatever the ids of [a1] are, the result lists, for each id of [a1]
    that [a2] lacks, the first item of [a1] carrying that id. *)
Lemma locateDifferenceInArrays_first (a1 a2 : list A) :
  locateDifferenceInArrays id_of a1 a2 = omap (find_by_id id_of a1) (id_array id_of a1 a2).
Proof. unfold locateDifferenceInArrays. now rewrite push_found_fold. Qed.

Lemma find_by_id_first (pre suf : list A) (o : A) :
  id_of o ∉ map id_of pre -> find_by_id id_of (pre ++ o :: suf) (id_of o) = Some o.
Proof.
  unfold find_by_id. induction pre as [|p pre IH]; simpl; intros Hn.
  - now rewrite bool_decide_eq_true_2.
  - rewrite not_elem_of_cons in Hn. destruct Hn as [Hne Hn].
    rewrite bool_decide_eq_false_2 by congruence. auto.
Qed.

Lemma omap_find_suffix (P : string -> Prop) `{!forall n, Decision (P n)}
      (pre l : list A) :
  NoDup (map id_of (pre ++ l)) ->
  omap (find_by_id id_of (pre ++ l)) (filter P (map id_of l))
  = filter (fun o => P (id_of o)) l.
Proof.
  revert pre. induction l as [|o l IH]; intros pre Hnd; [reflexivity|].
  assert (Hpre : id_of o ∉ map id_of pre).
  { rewrite map_app in Hnd. simpl in Hnd.
    apply NoDup_app in Hnd as (_ & Hd & _).
    intros Hin. apply (Hd _ Hin). left. }
  assert (Hrec : omap (find_by_id id_of (pre ++ o :: l)) (filter P (map id_of l))
                 = filter (fun o => P (id_of o)) l).
  { specialize (IH (pre ++ [o])). rewrite <- app_assoc in IH. simpl in IH. auto. }
  simpl map. rewrite !filter_cons.
  destruct (decide (P (id_of o))) as [Hp|Hp].
  - change (omap ?f (?x :: ?r)) with
      (match f x with Some y => y :: omap f r | None => omap f r end).
    rewrite (find_by_id_first pre l o Hpre). now rewrite Hrec.
  - exact Hrec.
Qed.

Lemma locateDifferenceInArrays_distinct (a1 a2 : list A) :
  NoDup (map id_of a1) -> locateDifferenceInArrays id_of a1 a2 = new_only id_of a1 a2.
Proof.
  intros Hnd. rewrite locateDifferenceInArrays_first. unfold id_array, new_only.
  exact (omap_find_suffix (fun n => n ∉ id_set id_of a2) [] a1 Hnd).
Qed.

Lemma NoDup_of_map (l : list A) : NoDup (map id_of l) -> NoDup l.
Proof. apply (NoDup_fmap_1 id_of). Qed.

Lemma locateDifferenceInArrays_sublist (a1 a2 : list A) :
  NoDup (map id_of a1) -> sublist (locateDifferenceInArrays id_of a1 a2) a1.
Proof.
  intros Hnd. rewrite locateDifferenceInArrays_distinct by assumption.
  apply sublist_filter.
Qed.
End DiffEngineFacts.

(** ** Running a computation *)

Section Run.
Context {K I : Type} `{Countable K}.

Definition exec {A} (m : M K I A) (st : State K I) : State K I := fst (m st).

Definition outcome {A} (m : M K I A) (st : State K I) : Completion A := snd (m st).

(** A computation that completes normally from every state: no exception
    leaves it. *)
Definition completes (m : M K I unit) : Prop :=
  forall st, outcome m st = Normal tt.

Lemma run_eq {A} (m : M K I A) st : m st = (exec m st, outcome m st).
Proof. unfold exec, outcome. now destruct (m st). Qed.

Lemma bind_normal {A B} (m : M K I A) (k : A -> M K I B) st a :
  outcome m st = Normal a -> bind m k st = k a (exec m st).
Proof. unfold outcome, exec, bind. destruct (m st) as [st' r]. simpl. now intros ->. Qed.

Lemma bind_thrown {A B} (m : M K I A) (k : A -> M K I B) st e :
  outcome m st = Thrown e -> bind m k st = (exec m st, Thrown e).
Proof. unfold outcome, exec, bind. destruct (m st) as [st' r]. simpl. now intros ->. Qed.

Lemma try_catch_normal {A} (m : M K I A) (h : Exn -> M K I A) st a :
  outcome m st = Normal a -> try_catch m h st = (exec m st, Normal a).
Proof. unfold outcome, exec, try_catch. destruct (m st) as [st' r]. simpl. now intros ->. Qed.

Lemma try_catch_thrown {A} (m : M K I A) (h : Exn -> M K I A) st e :
  outcome m st = Thrown e -> try_catch m h st = h e (exec m st).
Proof. unfold outcome, exec, try_catch. destruct (m st) as [st' r]. simpl. now intros ->. Qed.

(** A loop whose body always completes is the fold of the body's state
    transitions: every element is processed, in order. *)
Lemma for_of_fold {X} (xs : list X) (body : X -> M K I unit) st :
  (forall x, completes (body x)) ->
  for_of xs body st = (fold_left (fun s x => exec (body x) s) xs st, Normal tt).
Proof.
  intros Hb. revert st. induction xs as [|x xs IH]; intros st; simpl; [reflexivity|].
  rewrite (bind_normal _ _ _ tt) by apply Hb. apply IH.
Qed.

Lemma for_of_app {X} (xs ys : list X) (body : X -> M K I unit) :
  forall st, for_of (xs ++ ys) body st = bind (for_of xs body) (fun _ => for_of ys body) st.
Proof.
  induction xs as [|x xs IH]; intros st; simpl; [reflexivity|].
  unfold bind in *. destruct (body x st) as [st' [[]|e]]; [apply IH | reflexivity].
Qed.

(** The first exception leaving the body ends the loop where it stands. *)
Lemma for_of_stops {X} (pre post : list X) (x : X) (body : X -> M K I unit) st e :
  outcome (for_of pre body) st = Normal tt ->
  outcome (body x) (exec (for_of pre body) st) = Thrown e ->
  for_of (pre ++ x :: post) body st
  = (exec (body x) (exec (for_of pre body) st), Thrown e).
Proof.
  intros Hpre Hx. rewrite for_of_app, (bind_normal _ _ _ tt) by assumption.
  simpl. now rewrite (bind_thrown _ _ _ e).
Qed.

(** *** State relations kept by a computation *)

Section Keeps.
Variable R : State K I -> State K I -> Prop.
Hypothesis R_refl : forall st, R st st.
Hypothesis R_trans : forall st1 st2 st3, R st1 st2 -> R st2 st3 -> R st1 st3.

Definition keeps {A} (m : M K I A) : Prop := forall st, R st (exec m st).

Lemma keeps_ret {A} (a : A) : keeps (ret a).
Proof. intros st. apply R_refl. Qed.

Lemma keeps_throw {A} (e : Exn) : keeps (@throw K I _ _ A e).
Proof. intros st. apply R_refl. Qed.

Lemma keeps_gets {A} (f : State K I -> A) : keeps (gets f).
Proof. intros st. apply R_refl. Qed.

Lemma keeps_bind {A B} (m : M K I A) (k : A -> M K I B) :
  keeps m -> (forall a, keeps (k a)) -> keeps (bind m k).
Proof.
  intros Hm Hk st. unfold exec, bind. specialize (Hm st). unfold exec in Hm.
  destruct (m st) as [st' [a|e]]; simpl in *; [|assumption].
  eapply R_trans; [exact Hm | apply Hk].
Qed.

Lemma keeps_try_catch {A} (m : M K I A) (h : Exn -> M K I A) :
  keeps m -> (forall e, keeps (h e)) -> keeps (try_catch m h).
Proof.
  intros Hm Hh st. unfold exec, try_catch. specialize (Hm st). unfold exec in Hm.
  destruct (m st) as [st' [a|e]]; simpl in *; [assumption|].
  eapply R_trans; [exact Hm | apply Hh].
Qed.

Lemma keeps_for_of {X} (xs : list X) (body : X -> M K I unit) :
  (forall x, keeps (body x)) -> keeps (for_of xs body).
Proof.
  intros Hb. induction xs as [|x xs IH]; simpl; [apply keeps_ret|].
  apply keeps_bind; [apply Hb | intros _; exact IH].
Qed.

Lemma keeps_modify (f : State K I -> State K I) :
  (forall st, R st (f st)) -> keeps (modify f).
Proof. intros Hf st. apply Hf. Qed.

Lemma keeps_ask {A} (c : Call) (q : nat -> A) :
  (forall st, R st (record_call c st)) -> keeps (ask c q).
Proof. intros Hf st. apply Hf. Qed.

Lemma keeps_await {A} (c : Call) (q : nat -> Completion A) :
  (forall st, R st (record_call c st)) -> keeps (await c q).
Proof. intros Hf st. apply Hf. Qed.
End Keeps.

(** *** Exceptions a computation may end with *)

Section Throws.
Variable P : Exn -> Prop.

Definition throws_only {A} (m : M K I A) : Prop :=
  forall st e, outcome m st = Thrown e -> P e.

Lemma throws_only_ret {A} (a : A) : throws_only (ret a).
Proof. intros st e. discriminate. Qed.

Lemma throws_only_gets {A} (f : State K I -> A) : throws_only (gets f).
Proof. intros st e. discriminate. Qed.

Lemma throws_only_modify (f : State K I -> State K I) : throws_only (modify f).
Proof. intros st e. discriminate. Qed.

Lemma throws_only_ask {A} (c : Call) (q : nat -> A) : throws_only (ask c q).
Proof. intros st e. discriminate. Qed.

Lemma throws_only_throw {A} (e : Exn) : P e -> throws_only (@throw K I _ _ A e).
Proof. intros He st e' [= <-]. exact He. Qed.

Lemma throws_only_await {A} (c : Call) (q : nat -> Completion A) :
  (forall n e, q n = Thrown e -> P e) -> throws_only (await c q).
Proof. intros Hq st e. unfold outcome, await. simpl. apply Hq. Qed.

Lemma throws_only_bind {A B} (m : M K I A) (k : A -> M K I B) :
  throws_only m -> (forall a, throws_only (k a)) -> throws_only (bind m k).
Proof.
  intros Hm Hk st e. specialize (Hm st). unfold outcome, bind in *.
  destruct (m st) as [st' [a|e']]; simpl in *.
  - apply Hk.
  - intros [= <-]. now apply Hm.
Qed.

Lemma throws_only_for_of {X} (xs : list X) (body : X -> M K I unit) :
  (forall x, throws_only (body x)) -> throws_only (for_of xs body).
Proof.
  intros Hb. induction xs as [|x xs IH]; simpl; [apply throws_only_ret|].
  apply throws_only_bind; [apply Hb | intros _; exact IH].
Qed.
End Throws.

(** The cache, its files and the events are as they were. *)
Definition untouched (st st' : State K I) : Prop :=
  store st' = store st /\ disk st' = disk st /\ emitted st' = emitted st.

Lemma untouched_refl st : untouched st st.
Proof. now repeat split. Qed.

Lemma untouched_trans st1 st2 st3 :
  untouched st1 st2 -> untouched st2 st3 -> untouched st1 st3.
Proof. unfold untouched. intros (-> & -> & ->) (-> & -> & ->). now repeat split. Qed.

(** The cache and its files are as they were. *)
Definition cache_kept (st st' : State K I) : Prop :=
  store st' = store st /\ disk st' = disk st.

Lemma cache_kept_refl st : cache_kept st st.
Proof. now split. Qed.

Lemma cache_kept_trans st1 st2 st3 :
  cache_kept st1 st2 -> cache_kept st2 st3 -> cache_kept st1 st3.
Proof. unfold cache_kept. intros (-> & ->) (-> & ->). now split. Qed.

(** The events emitted so far stay, and those added all satisfy [P]. *)
Definition emits_only (P : Event -> Prop) (st st' : State K I) : Prop :=
  exists evs, emitted st' = emitted st ++ evs /\ Forall P evs.

Lemma emits_only_refl P st : emits_only P st st.
Proof. exists []. split; [now rewrite app_nil_r | constructor]. Qed.

Lemma emits_only_trans P st1 st2 st3 :
  emits_only P st1 st2 -> emits_only P st2 st3 -> emits_only P st1 st3.
Proof.
  intros (e1 & H1 & F1) (e2 & H2 & F2). exists (e1 ++ e2). split.
  - now rewrite H2, H1, app_assoc.
  - now apply Forall_app.
Qed.

End Run.

(** ** DiffEngine: the claim *)

Definition post_a : Post := {| post_id := "1"; isRead := false; post_content := "first" |}.
Definition post_b : Post := {| post_id := "1"; isRead := true; post_content := "second" |}.
Definition post_c : Post := {| post_id := "2"; isRead := false; post_content := "third" |}.

(** With any ids: an item of the result is an item of [a1] whose id no item
    of [a2] carries. *)
Lemma locateDifferenceInArrays_sound {A} (id_of : A -> string) (a1 a2 : list A) (o : A) :
  o ∈ locateDifferenceInArrays id_of a1 a2 -> o ∈ a1 /\ id_of o ∉ id_set id_of a2.
Proof.
  rewrite locateDifferenceInArrays_first, list_elem_of_omap.
  intros (n & Hn & Hfind). unfold id_array in Hn.
  apply list_elem_of_filter in Hn as [Hn _].
  unfold find_by_id in Hfind. pose proof (find_some _ _ Hfind) as [Hin Heq].
  apply bool_decide_eq_true_1 in Heq. subst n. split; [|assumption].
  now apply list_elem_of_In.
Qed.

(** C2, as stated, fails when two items of A share an id: the first of them is
    returned twice and the second, whose id is absent from B, never. *)
Lemma C2_diff_duplicate_ids :
  locateDifferenceInArrays post_id [post_a; post_b] [] = [post_a; post_a]
  /\ (post_b ∈ [post_a; post_b])
  /\ (post_id post_b ∉ id_set post_id [])
  /\ (post_b ∉ locateDifferenceInArrays post_id [post_a; post_b] []).
Proof.
  assert (Hrun : locateDifferenceInArrays post_id [post_a; post_b] [] = [post_a; post_a])
    by (vm_compute; reflexivity).
  split; [exact Hrun|]. split; [set_solver|]. split; [set_solver|].
  rewrite Hrun. intros Hin.
  repeat (apply elem_of_cons in Hin as [Hin|Hin]; [discriminate Hin|]).
  inversion Hin.
Qed.

(** C2 (amended): for arrays A and B whose elements carry an id, the ids of A
    being pairwise distinct, [#locateDifferenceInArrays(A, B)] is exactly the
    items of A whose id is absent from the ids of B, in the order of A: an
    item is in the result iff it is in A and no item of B has its id, and no
    item is in the result twice. *)
Theorem C2_diff_distinct_ids {A} (id_of : A -> string) (a1 a2 : list A) :
  NoDup (map id_of a1) ->
  locateDifferenceInArrays id_of a1 a2 = filter (fun o => id_of o ∉ id_set id_of a2) a1
  /\ (forall o, o ∈ locateDifferenceInArrays id_of a1 a2
                <-> o ∈ a1 /\ ~ exists o', o' ∈ a2 /\ id_of o' = id_of o)
  /\ NoDup (locateDifferenceInArrays id_of a1 a2)
  /\ sublist (locateDifferenceInArrays id_of a1 a2) a1.
Proof.
  intros Hnd. pose proof (locateDifferenceInArrays_distinct id_of a1 a2 Hnd) as Heq.
  unfold new_only in Heq. split; [exact Heq|]. split; [|split].
  - intros o. rewrite Heq, list_elem_of_filter, elem_of_id_set. tauto.
  - rewrite Heq. apply NoDup_filter. now apply (NoDup_of_map id_of).
  - now apply locateDifferenceInArrays_sublist.
Qed.

Lemma C2_diff_distinct_ids_witness :
  NoDup (map post_id [post_a; post_c])
  /\ locateDifferenceInArrays post_id [post_a; post_c] [post_b]
     = filter (fun o => post_id o ∉ id_set post_id [post_b]) [post_a; post_c].
Proof.
  assert (Hnd : NoDup (map post_id [post_a; post_c])).
  { simpl. apply NoDup_cons. split; [|apply NoDup_singleton].
    intros Hin. apply list_elem_of_singleton in Hin. discriminate Hin. }
  split; [exact Hnd|].
  exact (proj1 (C2_diff_distinct_ids post_id [post_a; post_c] [post_b] Hnd)).
Defined.

(** ** RecencyFilter *)

(** The spec's words: a time within the last 48 hours of the wall clock. *)
Definition within_last_48_hours (now t : Z) : Prop :=
  (now - 48 * 3600000 < t <= now)%Z.

(** What the code compares: a time later than 48 hours before the wall clock. *)
Definition later_than_48_hours_ago (parse : string -> option Z) (now : Z) (d : JsDate) : Prop :=
  exists t, getTime parse d = Some t /\ (now - 48 * 3600000 < t)%Z.

Lemma js_gt_spec (t : option Z) (threshold : Z) :
  js_gt t threshold = true <-> exists x, t = Some x /\ (threshold < x)%Z.
Proof.
  destruct t as [x|]; simpl.
  - rewrite Z.ltb_lt. split; [eauto | now intros (? & [= <-] & ?)].
  - split; [discriminate | now intros (? & ? & _)].
Qed.

Lemma isRecentAnnouncement_at_spec parse now a :
  isRecentAnnouncement_at parse now a = true
  <-> later_than_48_hours_ago parse now (publishDate a)
      \/ later_than_48_hours_ago parse now (startDate a).
Proof.
  unfold isRecentAnnouncement_at, later_than_48_hours_ago.
  rewrite orb_true_iff, !js_gt_spec.
  replace (1000 * 60 * 60 * 48)%Z with (48 * 3600000)%Z by reflexivity. tauto.
Qed.

(** A date that gives no time: missing ([undefined]) or a string that does
    not parse. *)
Definition date_unusable (parse : string -> option Z) (d : JsDate) : Prop :=
  d = DateUndefined \/ exists s, d = DateString s /\ parse s = None.

Lemma date_unusable_NaN parse d : date_unusable parse d -> getTime parse d = None.
Proof. intros [-> | (s & -> & Hs)]; [reflexivity | exact Hs]. Qed.

Lemma isRecentAnnouncement_at_unusable parse now a :
  date_unusable parse (publishDate a) -> date_unusable parse (startDate a) ->
  isRecentAnnouncement_at parse now a = false.
Proof.
  intros Hp Hs. unfold isRecentAnnouncement_at.
  now rewrite (date_unusable_NaN _ _ Hp), (date_unusable_NaN _ _ Hs).
Qed.

(** A [null] date is the epoch: it passes only on a clock set within 48 hours
    of 1970-01-01. *)
Lemma isRecentAnnouncement_at_null parse now a :
  publishDate a = DateNull -> startDate a = DateNull ->
  (48 * 3600000 <= now)%Z ->
  isRecentAnnouncement_at parse now a = false.
Proof.
  intros Hp Hs Hnow. unfold isRecentAnnouncement_at. rewrite Hp, Hs. simpl.
  rewrite orb_diag. apply Z.ltb_ge. lia.
Qed.

(** ** Stepping through a computation *)

Section Steps.
Context {K I : Type} `{Countable K}.

Lemma bind_ret {A B} (a : A) (k : A -> M K I B) st : bind (ret a) k st = k a st.
Proof. reflexivity. Qed.

Lemma bind_gets {A B} (f : State K I -> A) (k : A -> M K I B) st :
  bind (gets f) k st = k (f st) st.
Proof. reflexivity. Qed.

Lemma bind_modify {B} (f : State K I -> State K I) (k : unit -> M K I B) st :
  bind (modify f) k st = k tt (f st).
Proof. reflexivity. Qed.

Lemma bind_ask {A B} (c : Call) (q : nat -> A) (k : A -> M K I B) st :
  bind (ask c q) k st = k (q (length (asked st))) (record_call c st).
Proof. reflexivity. Qed.

Lemma bind_await {A B} (c : Call) (q : nat -> Completion A) (k : A -> M K I B) st :
  bind (await c q) k st
  = match q (length (asked st)) with
    | Normal a => k a (record_call c st)
    | Thrown e => (record_call c st, Thrown e)
    end.
Proof. unfold bind, await. now destruct (q (length (asked st))). Qed.

Lemma bind_assoc {A B C} (m : M K I A) (k : A -> M K I B) (k' : B -> M K I C) st :
  bind (bind m k) k' st = bind m (fun a => bind (k a) k') st.
Proof. unfold bind. destruct (m st) as [st' [a|e]]; reflexivity. Qed.
End Steps.

Ltac unfold_effects := unfold set, writeCacheFile, emit, log, handle401 in *.

(** Proves [keeps R m] by following the structure of [m]; what is left are
    the elementary state changes. *)
Ltac keeps_structure Hrefl Htrans :=
  repeat first
    [ match goal with
      | |- keeps _ (match ?x with _ => _ end) => destruct x
      end
    | apply (keeps_ret _ Hrefl)
    | apply (keeps_throw _ Hrefl)
    | apply (keeps_gets _ Hrefl)
    | apply (keeps_bind _ Htrans); [|intros ?]
    | apply (keeps_try_catch _ Htrans); [|intros []]
    | apply (keeps_for_of _ Hrefl Htrans); intros ?
    | apply keeps_ask; intros ?
    | apply keeps_await; intros ?
    | apply keeps_modify; intros ? ].

(** ** Announcements: what a tick leaves alone *)

Section AnnouncementsFrame.
Variable env : Env.

Lemma tryUser_untouched class_id md uid :
  keeps untouched (tryUser env class_id md uid).
Proof.
  unfold tryUser.
  keeps_structure (@untouched_refl string Announcement _ _)
                  (@untouched_trans string Announcement _ _);
    now repeat split.
Qed.

Lemma getClassAnnouncementsSafe_untouched class_id users md :
  keeps untouched (getClassAnnouncementsSafe env class_id users md).
Proof.
  induction users as [|uid users IH]; simpl.
  - apply keeps_ret, untouched_refl.
  - apply keeps_bind; [apply untouched_trans | apply tryUser_untouched |].
    intros [l|]; [apply keeps_ret, untouched_refl | exact IH].
Qed.

(** Every exception of a user's attempt is caught. What can leave the
    [catch] block, and with it the safe fetch, is the TypeError of a log line
    that could not render the exception. *)
Lemma tryUser_throws class_id md uid st e :
  outcome (tryUser env class_id md uid) st = Thrown e -> e = ErrOther.
Proof.
  unfold outcome, tryUser, try_catch. rewrite bind_await.
  destruct (getUserCookie env _ uid) as [[ck|]|[]]; simpl; try congruence.
  rewrite bind_await.
  destruct (getClassAnnouncements env _ class_id ck md) as [l|[]]; simpl; congruence.
Qed.

Lemma getClassAnnouncementsSafe_throws class_id users md st e :
  outcome (getClassAnnouncementsSafe env class_id users md) st = Thrown e -> e = ErrOther.
Proof.
  revert st. induction users as [|uid users IH]; intros st; simpl; [discriminate|].
  unfold outcome, bind.
  destruct (tryUser env class_id md uid st) as [st' [[l|]|e']] eqn:Hrun; simpl.
  - discriminate.
  - apply IH.
  - intros [= <-]. apply (tryUser_throws class_id md uid st).
    unfold outcome. now rewrite Hrun.
Qed.
End AnnouncementsFrame.

(** ** Announcements: running one course *)

Section AnnouncementsRun.
Variable env : Env.

Abbreviation SA := (State string Announcement).

(** The metadata the watcher injects for a course. *)
Definition course_metadata (course : Course) : AnnouncementMetadata :=
  {| am_courseCode := courseCode course; am_slugId := slugId course |}.

(** The safe fetch of a course, as the body of the watcher issues it from
    the state [st]: after the lookup of the active users. *)
Definition course_fetch (class_id : string) (course : Course) (st : SA)
    : SA * Completion (option (list Announcement)) :=
  getClassAnnouncementsSafe env class_id
    (getActiveUsersInClass env (length (asked st)) class_id)
    (course_metadata course)
    (record_call (CallActiveUsersInClass class_id) st).

Lemma course_fetch_untouched class_id course st :
  untouched st (fst (course_fetch class_id course st)).
Proof.
  unfold course_fetch.
  pose proof (getClassAnnouncementsSafe_untouched env class_id
    (getActiveUsersInClass env (length (asked st)) class_id) (course_metadata course)
    (record_call (CallActiveUsersInClass class_id) st)) as Hu.
  exact Hu.
Qed.

(** One evaluation of the filter and the emission it guards. *)
Lemma emitAnnouncement_run (a : Announcement) (st : SA) :
  emitAnnouncement env a st
  = (if isRecentAnnouncement_at (Date_parse env) (clock env (length (asked st))) a
     then exec (emit (EvAnnouncement a)) (record_call CallClock st)
     else record_call CallClock st,
     Normal tt).
Proof.
  unfold emitAnnouncement, isRecentAnnouncement. rewrite bind_assoc, bind_ask, bind_ret.
  now destruct (isRecentAnnouncement_at _ _ a).
Qed.

(** An event the announcements watcher may add: an announcement that passed
    the filter at some reading of the clock. *)
Definition recent_announcement_event (ev : Event) : Prop :=
  exists a now,
    ev = EvAnnouncement a /\ isRecentAnnouncement_at (Date_parse env) now a = true.

Lemma emitAnnouncement_emits_recent (a : Announcement) :
  keeps (emits_only recent_announcement_event) (emitAnnouncement env a).
Proof.
  intros st. unfold exec. rewrite emitAnnouncement_run. simpl.
  destruct (isRecentAnnouncement_at _ _ a) eqn:Hrecent.
  - exists [EvAnnouncement a]. split; [reflexivity|].
    constructor; [|constructor]. now exists a, (clock env (length (asked st))).
  - exists []. split; [simpl; now rewrite app_nil_r | constructor].
Qed.

Lemma announcementsTarget_emits_recent (entry : string * Course) :
  keeps (emits_only recent_announcement_event) (announcementsTarget env entry).
Proof.
  destruct entry as [class_id course]. unfold announcementsTarget, announcementsBody.
  assert (Hsafe : forall users md,
    keeps (emits_only recent_announcement_event)
          (getClassAnnouncementsSafe env class_id users md)).
  { intros users md st.
    destruct (getClassAnnouncementsSafe_untouched env class_id users md st) as (_ & _ & He).
    exists []. split; [now rewrite app_nil_r | constructor]. }
  pose proof emitAnnouncement_emits_recent as Hemit.
  repeat first
    [ apply Hsafe | apply Hemit
    | match goal with
      | |- keeps _ (match ?x with _ => _ end) => destruct x
      end
    | apply (keeps_ret _ (emits_only_refl _))
    | apply (keeps_throw _ (emits_only_refl _))
    | apply (keeps_gets _ (emits_only_refl _))
    | apply (keeps_bind _ (emits_only_trans _)); [|intros ?]
    | apply (keeps_try_catch _ (emits_only_trans _)); [|intros []]
    | apply (keeps_for_of _ (emits_only_refl _) (emits_only_trans _)); intros ?
    | apply keeps_ask; intros ?
    | apply keeps_modify; intros ? ];
    (exists []; split; [now rewrite app_nil_r | constructor]).
Qed.

Lemma watchForAnnouncements_emits_recent :
  keeps (emits_only recent_announcement_event) (watchForAnnouncements env).
Proof.
  unfold watchForAnnouncements.
  apply (keeps_bind _ (emits_only_trans _)).
  - apply keeps_await. intros st. exists []. split; [now rewrite app_nil_r | constructor].
  - intros courses. apply (keeps_for_of _ (emits_only_refl _) (emits_only_trans _)).
    apply announcementsTarget_emits_recent.
Qed.

(** The body for one course, once the safe fetch has resolved to [fetched]. *)
Lemma announcementsBody_run class_id course st fetched :
  getActiveUsersInClass env (length (asked st)) class_id <> [] ->
  snd (course_fetch class_id course st) = Normal fetched ->
  announcementsBody env class_id course st
  = (let old_announcements := get_or_null class_id st in
     let new_announcements :=
       match fetched with Some l => Some l | None => old_announcements end in
     set class_id new_announcements ;;;
     match old_announcements, new_announcements with
     | None, _ => writeCacheFile class_id new_announcements
     | Some old_l, Some new_l =>
         if Nat.eqb (length new_l) (length old_l) then ret tt else
         log (LogDebug (courseCode course)) ;;;
         writeCacheFile class_id new_announcements ;;;
         for_of (locateDifferenceInArrays ann_id new_l old_l) (emitAnnouncement env)
     | Some _, None => throw ErrOther
     end) (fst (course_fetch class_id course st)).
Proof.
  intros Husers Hfetch. unfold announcementsBody. rewrite bind_ask.
  destruct (getActiveUsersInClass env (length (asked st)) class_id) as [|u us] eqn:Hu;
    [congruence|].
  change (Nat.eqb (length (u :: us)) 0) with false. cbv iota.
  rewrite bind_gets.
  unfold course_fetch in *. rewrite Hu in *. fold (course_metadata course).
  rewrite (bind_normal _ _ _ fetched) by exact Hfetch.
  reflexivity.
Qed.

Lemma emitAnnouncement_completes (a : Announcement) : completes (emitAnnouncement env a).
Proof. intros st. unfold outcome. now rewrite emitAnnouncement_run. Qed.

(** What leaves the [try] block of a course is a TypeError: that of the log
    line of the safe fetch, or that of [null.length]. *)
Lemma announcementsBody_throws class_id course st e :
  outcome (announcementsBody env class_id course) st = Thrown e -> e = ErrOther.
Proof.
  unfold outcome, announcementsBody. rewrite bind_ask.
  destruct (Nat.eqb _ 0); [discriminate|].
  rewrite bind_gets. unfold bind at 1.
  destruct (getClassAnnouncementsSafe env class_id _ _ _) as [st1 [fetched|e']] eqn:Hfetch.
  - unfold set, bind at 1, modify.
    destruct (get_or_null class_id _) as [old_l|], fetched as [new_l|]; simpl;
      try discriminate.
    + destruct (Nat.eqb _ _); [discriminate|].
      unfold log, writeCacheFile, bind, modify.
      rewrite for_of_fold by apply emitAnnouncement_completes. discriminate.
    + destruct (Nat.eqb _ _); [discriminate|].
      unfold log, writeCacheFile, bind, modify.
      rewrite for_of_fold by apply emitAnnouncement_completes. discriminate.
  - intros [= <-]. eapply getClassAnnouncementsSafe_throws.
    unfold outcome. now rewrite Hfetch.
Qed.

(** The per-course handler catches everything, and its own log line renders
    what it catches. *)
Lemma announcementsTarget_completes entry : completes (announcementsTarget env entry).
Proof.
  destruct entry as [class_id course]. intros st.
  unfold outcome, announcementsTarget, try_catch.
  destruct (announcementsBody env class_id course st) as [st' [[]|e]] eqn:Hrun;
    [reflexivity|].
  assert (e = ErrOther) as ->.
  { apply (announcementsBody_throws class_id course st). unfold outcome. now rewrite Hrun. }
  reflexivity.
Qed.
End AnnouncementsRun.

(** ** Concrete collaborators for the examples *)

(** 2024-01-03T00:00:00Z in milliseconds. *)
Definition example_now : Z := 1704240000000%Z.

Definition example_parse (s : string) : option Z :=
  if bool_decide (s = "2024-01-03T01:00:00.000Z") then Some 1704243600000%Z
  else if bool_decide (s = "2024-01-02T23:00:00.000Z") then Some 1704236400000%Z
  else if bool_decide (s = "2023-12-31T23:00:00.000Z") then Some 1704063600000%Z
  else None.

Definition example_course : Course := {| courseCode := "CST-101"; slugId := "cst-101-o500" |}.

(** One course ["c1"] with one active user ["u1"] whose cookie resolves; the
    remote answers are the parameters. *)
Definition example_env
    (announcements : Cookie -> Completion (list Announcement))
    (grades : Completion (list Grade * string))
    (feedback : string -> Completion Feedback)
    (inbox : Completion (list Forum))
    (posts : string -> Completion (list Post)) : Env :=
  {| getActiveClasses := fun _ => Normal [("c1", example_course)];
     getActiveUsersInClass := fun _ class_id =>
       if bool_decide (class_id = "c1") then ["u1"] else [];
     getAllActiveUsers := fun _ => Normal ["u1"];
     getUserCookie := fun _ uid => Normal (Some ("cookie-of-" +:+ uid));
     getClassAnnouncements := fun _ _ cookie _ => announcements cookie;
     getAllGrades := fun _ _ _ _ => grades;
     getUserId := fun _ _ => Normal "halo-1";
     getGradeFeedback := fun _ _ assessment _ _ => feedback assessment;
     getUserInbox := fun _ _ => inbox;
     getPostsForInboxForum := fun _ _ forum_id => posts forum_id;
     clock := fun _ => example_now;
     Date_parse := example_parse |}.

(** An environment where only the clock and the date parser matter. *)
Definition clock_env : Env :=
  example_env (fun _ => Normal []) (Normal ([], "")) (fun _ => Thrown ErrOther)
              (Normal []) (fun _ => Normal []).

Definition initial_state {K I : Type} `{Countable K}
    (cached : list (K * option (list I))) : State K I :=
  mkState (list_to_map cached) [] [] [] [] [].

Definition ann_future : Announcement :=
  {| ann_id := "9"; publishDate := DateString "2024-01-03T01:00:00.000Z";
     startDate := DateUndefined; ann_title := "scheduled" |}.
Definition ann_1h : Announcement :=
  {| ann_id := "2"; publishDate := DateString "2024-01-02T23:00:00.000Z";
     startDate := DateUndefined; ann_title := "fresh" |}.
Definition ann_49h : Announcement :=
  {| ann_id := "3"; publishDate := DateString "2023-12-31T23:00:00.000Z";
     startDate := DateString "2023-12-31T23:00:00.000Z"; ann_title := "stale" |}.
Definition ann_undated : Announcement :=
  {| ann_id := "4"; publishDate := DateUndefined;
     startDate := DateString "next Monday"; ann_title := "undated" |}.

(** C8, as stated, fails for a date in the future: an announcement published
    one hour after the wall clock passes the filter, and none of its dates is
    within the last 48 hours. *)
Lemma C8_future_date_passes :
  isRecentAnnouncement_at example_parse example_now ann_future = true
  /\ ~ (exists t, getTime example_parse (publishDate ann_future) = Some t
                  /\ within_last_48_hours example_now t)
  /\ ~ (exists t, getTime example_parse (startDate ann_future) = Some t
                  /\ within_last_48_hours example_now t).
Proof.
  split; [reflexivity|]. split.
  - intros (t & Ht & _ & Hle). vm_compute in Ht. injection Ht as <-.
    vm_compute in Hle. now apply Hle.
  - intros (t & Ht & _). discriminate Ht.
Qed.

(** C8 (amended): the filter passes an announcement iff its publishDate or
    its startDate parses to a time strictly later than 48 hours before the
    wall clock read at the evaluation (there is no upper bound: a date in the
    future passes too), and the announcement is emitted exactly then; with
    both dates 49 hours in the past it is excluded, with publishDate 1 hour
    in the past it passes. *)
Theorem C8_recency_filter (env : Env) (a : Announcement) (st : State string Announcement) :
  let now := clock env (length (asked st)) in
  (isRecentAnnouncement_at (Date_parse env) now a = true
   <-> later_than_48_hours_ago (Date_parse env) now (publishDate a)
       \/ later_than_48_hours_ago (Date_parse env) now (startDate a))
  /\ emitted (exec (emitAnnouncement env a) st)
     = emitted st ++ (if isRecentAnnouncement_at (Date_parse env) now a
                      then [EvAnnouncement a] else [])
  /\ (getTime (Date_parse env) (publishDate a) = Some (now - 49 * 3600000)%Z ->
      getTime (Date_parse env) (startDate a) = Some (now - 49 * 3600000)%Z ->
      isRecentAnnouncement_at (Date_parse env) now a = false)
  /\ (getTime (Date_parse env) (publishDate a) = Some (now - 1 * 3600000)%Z ->
      isRecentAnnouncement_at (Date_parse env) now a = true).
Proof.
  intros now. split; [apply isRecentAnnouncement_at_spec|]. split; [|split].
  - unfold exec. rewrite emitAnnouncement_run. fold now. simpl.
    destruct (isRecentAnnouncement_at _ now a); simpl; [reflexivity | now rewrite app_nil_r].
  - intros Hp Hs. unfold isRecentAnnouncement_at. rewrite Hp, Hs. simpl.
    rewrite orb_diag. apply Z.ltb_ge. lia.
  - intros Hp. unfold isRecentAnnouncement_at. rewrite Hp. simpl.
    apply orb_true_iff. left. apply Z.ltb_lt. lia.
Qed.

Lemma C8_recency_filter_witness :
  isRecentAnnouncement_at example_parse example_now ann_49h = false
  /\ isRecentAnnouncement_at example_parse example_now ann_1h = true.
Proof.
  split.
  - apply (proj1 (proj2 (proj2
      (C8_recency_filter clock_env ann_49h (initial_state []))))); reflexivity.
  - apply (proj2 (proj2 (proj2
      (C8_recency_filter clock_env ann_1h (initial_state []))))); reflexivity.
Defined.

(** C10: an announcement whose publishDate and startDate are both missing
    ([undefined]) or not parseable as dates never passes the filter, whatever
    the clock, and no tick of the announcements watcher emits it. (A [null]
    date is not of this kind: it is the epoch, see
    [isRecentAnnouncement_at_null].) *)
Theorem C10_undated_announcement_never_emitted (env : Env) (a : Announcement) :
  date_unusable (Date_parse env) (publishDate a) ->
  date_unusable (Date_parse env) (startDate a) ->
  (forall now, isRecentAnnouncement_at (Date_parse env) now a = false)
  /\ (forall st, emitted (exec (emitAnnouncement env a) st) = emitted st)
  /\ (forall st, EvAnnouncement a ∈ emitted (exec (watchForAnnouncements env) st) ->
                 EvAnnouncement a ∈ emitted st).
Proof.
  intros Hp Hs.
  assert (Hnever : forall now, isRecentAnnouncement_at (Date_parse env) now a = false)
    by (intros now; now apply isRecentAnnouncement_at_unusable).
  split; [exact Hnever|]. split.
  - intros st. unfold exec. rewrite emitAnnouncement_run, Hnever. reflexivity.
  - intros st Hin.
    destruct (watchForAnnouncements_emits_recent env st) as (evs & Heq & Hall).
    rewrite Heq in Hin. apply elem_of_app in Hin as [Hin|Hin]; [exact Hin|].
    rewrite Forall_forall in Hall.
    destruct (Hall _ Hin) as (a' & now & [= <-] & Hrecent).
    rewrite Hnever in Hrecent. discriminate Hrecent.
Qed.

Lemma C10_undated_announcement_never_emitted_witness :
  date_unusable example_parse (publishDate ann_undated)
  /\ date_unusable example_parse (startDate ann_undated)
  /\ isRecentAnnouncement_at example_parse example_now ann_undated = false.
Proof.
  assert (Hp : date_unusable example_parse (publishDate ann_undated))
    by (left; reflexivity).
  assert (Hs : date_unusable example_parse (startDate ann_undated))
    by (right; exists "next Monday"; split; reflexivity).
  split; [exact Hp|]. split; [exact Hs|].
  exact (proj1 (C10_undated_announcement_never_emitted clock_env ann_undated Hp Hs)
               example_now).
Defined.

(** ** Announcements: the three outcomes of the update for one course *)

Section AnnouncementsUpdate.
Variable env : Env.
Variables (class_id : string) (course : Course) (st : State string Announcement).

Hypothesis active_users :
  getActiveUsersInClass env (length (asked st)) class_id <> [].

Let st' := exec (announcementsTarget env (class_id, course)) st.

(** Old snapshot [null], the fetch resolved to [l]: persisted, no event. *)
Lemma announcements_first_fetch (l : list Announcement) :
  get_or_null class_id st = None ->
  snd (course_fetch env class_id course st) = Normal (Some l) ->
  emitted st' = emitted st
  /\ disk st' = disk st ++ [(class_id, Some l)]
  /\ store st' = <[class_id := Some l]> (store st).
Proof.
  intros Hold Hfetch. subst st'. unfold exec, announcementsTarget, try_catch.
  rewrite (announcementsBody_run env class_id course st (Some l) active_users Hfetch).
  rewrite Hold. cbv zeta. unfold_effects. rewrite bind_modify. unfold modify. simpl.
  destruct (course_fetch_untouched env class_id course st) as (-> & -> & ->).
  now repeat split.
Qed.

(** Old snapshot an array, the fetch resolved to an array of the same
    length: the snapshot is replaced, nothing is persisted, no event. *)
Lemma announcements_same_length (old_l l : list Announcement) :
  get_or_null class_id st = Some old_l ->
  snd (course_fetch env class_id course st) = Normal (Some l) ->
  length l = length old_l ->
  emitted st' = emitted st
  /\ disk st' = disk st
  /\ store st' = <[class_id := Some l]> (store st).
Proof.
  intros Hold Hfetch Hlen. subst st'. unfold exec, announcementsTarget, try_catch.
  rewrite (announcementsBody_run env class_id course st (Some l) active_users Hfetch).
  rewrite Hold. cbv zeta. unfold_effects. rewrite bind_modify.
  rewrite Hlen, Nat.eqb_refl. unfold ret. simpl.
  destruct (course_fetch_untouched env class_id course st) as (-> & -> & ->).
  now repeat split.
Qed.

Lemma get_or_null_Some (old_l : list Announcement) :
  get_or_null class_id st = Some old_l -> store st !! class_id = Some (Some old_l).
Proof.
  unfold get_or_null. destruct (store st !! class_id) as [[l|]|]; congruence.
Qed.

(** Old snapshot an array, no user yielded a result: the cache, its file and
    the events are as before. *)
Lemma announcements_failed_fetch_keeps_snapshot (old_l : list Announcement) :
  get_or_null class_id st = Some old_l ->
  snd (course_fetch env class_id course st) = Normal None ->
  emitted st' = emitted st /\ disk st' = disk st /\ store st' = store st.
Proof.
  intros Hold Hfetch. subst st'. unfold exec, announcementsTarget, try_catch.
  rewrite (announcementsBody_run env class_id course st None active_users Hfetch).
  rewrite Hold. cbv zeta. unfold_effects. rewrite bind_modify.
  rewrite Nat.eqb_refl. unfold ret. simpl.
  destruct (course_fetch_untouched env class_id course st) as (-> & -> & ->).
  repeat split. apply insert_id. now apply get_or_null_Some.
Qed.

(** Old snapshot [null], no user yielded a result: [null] is stored and
    written to the course's file all the same. *)
Lemma announcements_failed_first_fetch :
  get_or_null class_id st = None ->
  snd (course_fetch env class_id course st) = Normal None ->
  emitted st' = emitted st
  /\ disk st' = disk st ++ [(class_id, None)]
  /\ store st' = <[class_id := None]> (store st).
Proof.
  intros Hold Hfetch. subst st'. unfold exec, announcementsTarget, try_catch.
  rewrite (announcementsBody_run env class_id course st None active_users Hfetch).
  rewrite Hold. cbv zeta. unfold_effects. rewrite bind_modify. unfold modify. simpl.
  destruct (course_fetch_untouched env class_id course st) as (-> & -> & ->).
  now repeat split.
Qed.
End AnnouncementsUpdate.

(** A 401 on a user's cookie is reported for that user. *)
Lemma tryUser_reports_401 env class_id md uid cookie (st : State string Announcement) :
  getUserCookie env (length (asked st)) uid = Normal (Some cookie) ->
  getClassAnnouncements env (S (length (asked st))) class_id cookie md = Thrown Err401 ->
  reported (exec (tryUser env class_id md uid) st) = reported st ++ [uid]
  /\ outcome (tryUser env class_id md uid) st = Normal None.
Proof.
  intros Hck Hfetch. unfold exec, outcome, tryUser, try_catch.
  rewrite bind_await, Hck, bind_await. simpl.
  rewrite length_app, Nat.add_1_r, Hfetch. now split.
Qed.

(** ** Grades: running one course-user pair *)

Lemma truthy_timestamp (d : option Timestamp) :
  truthy (timestamp_string <$> d) = bool_decide (is_Some d).
Proof.
  destruct d as [[c rest]|].
  - transitivity true.
    + reflexivity.
    + symmetry. apply bool_decide_eq_true_2. eauto.
  - symmetry. apply bool_decide_eq_false_2. intros [? ?]. discriminate.
Qed.


Section GradesRun.
Variable env : Env.
Variables (course : Course) (uid : string) (cookie : Cookie) (finalGrade : string).

Abbreviation SG := (State (string * string) Grade).

(** The metadata the watcher hands to the feedback fetch. *)
Definition feedback_metadata : GradeMetadata :=
  {| gm_courseCode := courseCode course; gm_finalGrade := finalGrade;
     gm_uid := uid; gm_slugId := slugId course |}.

Definition is_unseen (g : Grade) : bool :=
  match userLastSeenDate g with None => true | Some _ => false end.

Lemma emitGrade_seen (g : Grade) (st : SG) :
  userLastSeenDate g <> None ->
  emitGrade env course uid cookie finalGrade g st = (st, Normal tt).
Proof.
  intros Hseen. unfold emitGrade. rewrite truthy_timestamp.
  rewrite bool_decide_eq_true_2; [reflexivity|].
  destruct (userLastSeenDate g); [eauto | congruence].
Qed.

Lemma emitGrade_unseen (g : Grade) (st : SG) :
  userLastSeenDate g = None ->
  emitGrade env course uid cookie finalGrade g st
  = match getUserId env (length (asked st)) cookie with
    | Thrown e => (record_call (CallUserId cookie) st, Thrown e)
    | Normal halo_uid =>
        let st1 := record_call (CallUserId cookie) st in
        let st2 := record_call (CallGradeFeedback cookie (assessment_id g) halo_uid) st1 in
        match getGradeFeedback env (length (asked st1)) cookie (assessment_id g)
                halo_uid feedback_metadata with
        | Thrown e => (st2, Thrown e)
        | Normal feedback => (exec (emit (EvGrade feedback)) st2, Normal tt)
        end
    end.
Proof.
  intros Hunseen. unfold emitGrade. rewrite truthy_timestamp, Hunseen.
  rewrite bool_decide_eq_false_2 by (intros [? ?]; discriminate).
  rewrite bind_await. destruct (getUserId env _ cookie) as [halo_uid|e]; [|reflexivity].
  rewrite bind_await. fold feedback_metadata. cbv zeta.
  now destruct (getGradeFeedback env _ cookie (assessment_id g) halo_uid feedback_metadata).
Qed.

(** [feedback] is an answer of the feedback fetch for the assessment of [g]. *)
Definition feedback_of (g : Grade) (feedback : Feedback) : Prop :=
  exists n halo_uid,
    getGradeFeedback env n cookie (assessment_id g) halo_uid feedback_metadata
    = Normal feedback.

(** The emission loop over the diffed grades: the events added are the
    feedbacks of the unseen grades, in order, up to the first grade whose
    enrichment fails; nothing is emitted for that grade or any later one. *)
Lemma emitGrades_events (items : list Grade) (st : SG) :
  let run := for_of items (emitGrade env course uid cookie finalGrade) in
  exists notified dropped feedbacks,
    List.filter is_unseen items = notified ++ dropped
    /\ emitted (exec run st) = emitted st ++ (EvGrade <$> feedbacks)
    /\ Forall2 feedback_of notified feedbacks
    /\ (outcome run st = Normal tt -> dropped = [])
    /\ (forall e, outcome run st = Thrown e -> dropped <> []).
Proof.
  revert st. induction items as [|g items IH]; intros st; cbv zeta.
  - exists [], [], []. simpl. rewrite app_nil_r. repeat split; try constructor.
    intros e. discriminate.
  - simpl for_of. unfold exec, outcome, bind.
    destruct (userLastSeenDate g) as [ts|] eqn:Hseen.
    + rewrite emitGrade_seen by congruence.
      destruct (IH st) as (notified & dropped & fbs & Hf & He & H2 & Hn & Ht).
      exists notified, dropped, fbs. simpl. unfold is_unseen at 1. rewrite Hseen.
      repeat split; assumption.
    + rewrite emitGrade_unseen by assumption.
      simpl List.filter. unfold is_unseen at 1. rewrite Hseen.
      destruct (getUserId env _ cookie) as [halo_uid|e].
      2:{ exists [], (g :: List.filter is_unseen items), []. simpl.
          rewrite app_nil_r. repeat split; try constructor; discriminate. }
      cbv zeta.
      destruct (getGradeFeedback env _ cookie (assessment_id g) halo_uid feedback_metadata)
        as [fb|e] eqn:Hfb.
      2:{ exists [], (g :: List.filter is_unseen items), []. simpl.
          rewrite app_nil_r. repeat split; try constructor; discriminate. }
      match goal with |- context [for_of items _ ?s] =>
        destruct (IH s) as (notified & dropped & fbs & Hf & He & H2 & Hn & Ht) end.
      exists (g :: notified), dropped, (fb :: fbs).
      unfold exec, outcome in *. repeat split.
      * simpl. now rewrite Hf.
      * rewrite He. simpl. now rewrite <- app_assoc.
      * constructor; [|assumption]. eexists _, halo_uid. exact Hfb.
      * assumption.
      * assumption.
Qed.

Lemma emitGrades_cache_kept (items : list Grade) :
  keeps cache_kept (for_of items (emitGrade env course uid cookie finalGrade)).
Proof.
  unfold emitGrade.
  keeps_structure (@cache_kept_refl (string * string) Grade _ _)
                  (@cache_kept_trans (string * string) Grade _ _);
    now split.
Qed.

(** The per-pair handler catches every exception of the [try] block. The
    pair's turn ends normally unless the log line cannot render the
    exception; the TypeError of the line then leaves the handler. *)
Lemma gradesTarget_outcome (course_id : string) st :
  outcome (gradesTarget env course_id course uid) st
  = match outcome (gradesBody env course_id course uid) st with
    | Normal _ => Normal tt
    | Thrown e =>
        if template_throws e || stringify_throws e then Thrown ErrOther else Normal tt
    end.
Proof.
  unfold outcome, gradesTarget, try_catch.
  now destruct (gradesBody env course_id course uid st) as [st' [[]|[]]].
Qed.

(** A failure the handler can log does not stop the loop over the users. *)
Lemma gradesTarget_caught (course_id : string) (users : list string) st e :
  outcome (gradesBody env course_id course uid) st = Thrown e ->
  template_throws e || stringify_throws e = false ->
  outcome (gradesTarget env course_id course uid) st = Normal tt
  /\ for_of (uid :: users) (gradesTarget env course_id course) st
     = for_of users (gradesTarget env course_id course)
         (exec (gradesTarget env course_id course uid) st).
Proof.
  intros Hbody Hrender.
  assert (Hout : outcome (gradesTarget env course_id course uid) st = Normal tt).
  { now rewrite gradesTarget_outcome, Hbody, Hrender. }
  split; [exact Hout|]. simpl. now rewrite (bind_normal _ _ _ tt).
Qed.
End GradesRun.

(** The services of the grades watcher reject only with errors that its log
    line renders (or with a 401, which is not rendered). *)
Definition grades_failures_render (env : Env) : Prop :=
  (forall n uid e,
     getUserCookie env n uid = Thrown e -> template_throws e || stringify_throws e = false)
  /\ (forall n slug cookie code e,
        getAllGrades env n slug cookie code = Thrown e ->
        template_throws e || stringify_throws e = false)
  /\ (forall n cookie e,
        getUserId env n cookie = Thrown e -> template_throws e || stringify_throws e = false)
  /\ (forall n cookie assessment halo_uid md e,
        getGradeFeedback env n cookie assessment halo_uid md = Thrown e ->
        template_throws e || stringify_throws e = false).

Ltac throws_structure :=
  repeat first
    [ match goal with
      | |- throws_only _ (match ?x with _ => _ end) => destruct x
      | |- throws_only _ (let (_, _) := ?x in _) => destruct x
      end
    | apply throws_only_ret
    | apply throws_only_throw; reflexivity
    | apply throws_only_gets
    | apply throws_only_ask
    | apply throws_only_bind; [|intros ?]
    | apply throws_only_for_of; intros ?
    | apply throws_only_modify ].

Lemma gradesBody_throws_rendered (env : Env) course_id course uid :
  grades_failures_render env ->
  throws_only (fun e => template_throws e || stringify_throws e = false)
              (gradesBody env course_id course uid).
Proof.
  intros (Hck & Hgrades & Hid & Hfb). unfold gradesBody, emitGrade.
  throws_structure; apply throws_only_await; intros n e; eauto.
Qed.

Lemma gradesTarget_completes (env : Env) course_id course uid :
  grades_failures_render env -> completes (gradesTarget env course_id course uid).
Proof.
  intros Henv st. rewrite gradesTarget_outcome.
  destruct (outcome (gradesBody env course_id course uid) st) as [[]|e] eqn:Hbody;
    [reflexivity|].
  now rewrite (gradesBody_throws_rendered env course_id course uid Henv st e Hbody).
Qed.

Lemma gradesCourse_completes (env : Env) (entry : string * Course) :
  grades_failures_render env -> completes (gradesCourse env entry).
Proof.
  intros Henv. destruct entry as [course_id course]. intros st.
  unfold outcome, gradesCourse.
  rewrite bind_ask, for_of_fold by (intros u; now apply gradesTarget_completes).
  reflexivity.
Qed.

Section GradesUpdate.
Variable env : Env.
Variables (course_id : string) (course : Course) (uid : string).
Variable st : State (string * string) Grade.

Definition grades_path : string := course_id +:+ "/" +:+ uid +:+ ".json".

(** The state in which the fetched grades are handled: after the cookie
    lookup and the fetch. *)
Definition after_grades_fetch (cookie : Cookie) : State (string * string) Grade :=
  record_call (CallAllGrades (slugId course) cookie) (record_call (CallUserCookie uid) st).

Lemma gradesBody_run cookie grades finalGrade :
  getUserCookie env (length (asked st)) uid = Normal (Some cookie) ->
  getAllGrades env (S (length (asked st))) (slugId course) cookie (courseCode course)
  = Normal (grades, finalGrade) ->
  gradesBody env course_id course uid st
  = let new_grades := List.filter is_published grades in
    let st3 := exec (set (course_id, uid) (Some new_grades)) (after_grades_fetch cookie) in
    match get_default (course_id, uid) None st with
    | None => (exec (writeCacheFile grades_path (Some new_grades)) st3, Normal tt)
    | Some old_l =>
        if Nat.eqb (length new_grades) (length old_l) then (st3, Normal tt) else
        for_of (locateDifferenceInArrays grade_id new_grades old_l)
               (emitGrade env course uid cookie finalGrade)
               (exec (writeCacheFile grades_path (Some new_grades)) st3)
    end.
Proof.
  intros Hck Hfetch. unfold gradesBody.
  rewrite bind_await, Hck, bind_gets, bind_await. simpl length.
  rewrite length_app, Nat.add_1_r, Hfetch.
  unfold_effects. rewrite bind_modify. cbv zeta.
  change (get_default (course_id, uid) None (record_call (CallUserCookie uid) st))
    with (get_default (course_id, uid) None st).
  destruct (get_default (course_id, uid) None st) as [old_l|]; [|reflexivity].
  destruct (Nat.eqb _ _); [reflexivity|].
  rewrite bind_modify. reflexivity.
Qed.

Let st' := exec (gradesTarget env course_id course uid) st.

(** No cookie: the pair is skipped silently. *)
Lemma grades_no_cookie :
  getUserCookie env (length (asked st)) uid = Normal None ->
  untouched st st' /\ reported st' = reported st.
Proof.
  intros Hck. subst st'. unfold exec, gradesTarget, try_catch, gradesBody.
  rewrite bind_await, Hck. simpl. now repeat split.
Qed.

(** The grade fetch fails: cache, files and events are as before; a 401 is
    reported for the user. *)
Lemma grades_failed_fetch cookie e :
  getUserCookie env (length (asked st)) uid = Normal (Some cookie) ->
  getAllGrades env (S (length (asked st))) (slugId course) cookie (courseCode course)
  = Thrown e ->
  untouched st st'
  /\ reported st' = reported st ++ (if e is Err401 then [uid] else []).
Proof.
  intros Hck Hfetch. subst st'. unfold exec, gradesTarget, try_catch, gradesBody.
  rewrite bind_await, Hck, bind_gets, bind_await. simpl length.
  rewrite length_app, Nat.add_1_r, Hfetch.
  destruct e; simpl; repeat split; now rewrite app_nil_r.
Qed.

(** The cookie lookup itself fails. *)
Lemma grades_failed_cookie e :
  getUserCookie env (length (asked st)) uid = Thrown e ->
  untouched st st'.
Proof.
  intros Hck. subst st'. unfold exec, gradesTarget, try_catch, gradesBody.
  rewrite bind_await, Hck. destruct e; simpl; now repeat split.
Qed.

Section Fetched.
Variables (cookie : Cookie) (grades : list Grade) (finalGrade : string).
Hypothesis cookie_resolves :
  getUserCookie env (length (asked st)) uid = Normal (Some cookie).
Hypothesis grades_fetched :
  getAllGrades env (S (length (asked st))) (slugId course) cookie (courseCode course)
  = Normal (grades, finalGrade).

Let new_grades := List.filter is_published grades.

Lemma grades_first_fetch :
  get_default (course_id, uid) None st = None ->
  emitted st' = emitted st
  /\ disk st' = disk st ++ [(grades_path, Some new_grades)]
  /\ store st' = <[(course_id, uid) := Some new_grades]> (store st).
Proof.
  intros Hold. subst st'. unfold exec, gradesTarget, try_catch.
  rewrite (gradesBody_run cookie grades finalGrade cookie_resolves grades_fetched).
  rewrite Hold. cbv zeta. now repeat split.
Qed.

Lemma grades_same_length old_l :
  get_default (course_id, uid) None st = Some old_l ->
  length new_grades = length old_l ->
  emitted st' = emitted st
  /\ disk st' = disk st
  /\ store st' = <[(course_id, uid) := Some new_grades]> (store st).
Proof.
  intros Hold Hlen. subst st'. unfold exec, gradesTarget, try_catch.
  rewrite (gradesBody_run cookie grades finalGrade cookie_resolves grades_fetched).
  rewrite Hold. cbv zeta. fold new_grades. rewrite Hlen, Nat.eqb_refl.
  now repeat split.
Qed.

(** Whatever the old snapshot: the published grades are cached, written at
    most once, and the events added are the feedbacks of unseen diffed
    grades, in order, up to the first failing enrichment. *)
Lemma grades_fetched_run :
  store st' = <[(course_id, uid) := Some new_grades]> (store st)
  /\ (disk st' = disk st \/ disk st' = disk st ++ [(grades_path, Some new_grades)])
  /\ exists notified dropped feedbacks,
       match get_default (course_id, uid) None st with
       | None => notified = [] /\ dropped = []
       | Some old_l =>
           if Nat.eqb (length new_grades) (length old_l)
           then notified = [] /\ dropped = []
           else List.filter is_unseen (locateDifferenceInArrays grade_id new_grades old_l)
                = notified ++ dropped
       end
       /\ emitted st' = emitted st ++ (EvGrade <$> feedbacks)
       /\ Forall2 (feedback_of env course uid cookie finalGrade) notified feedbacks.
Proof.
  subst st'. unfold exec, gradesTarget, try_catch.
  rewrite (gradesBody_run cookie grades finalGrade cookie_resolves grades_fetched).
  cbv zeta. fold new_grades.
  destruct (get_default (course_id, uid) None st) as [old_l|].
  2:{ simpl. repeat split; [now right|]. exists [], [], []. simpl.
      rewrite app_nil_r. repeat split. constructor. }
  destruct (Nat.eqb (length new_grades) (length old_l)).
  { simpl. repeat split; [now left|]. exists [], [], []. simpl.
    rewrite app_nil_r. repeat split. constructor. }
  match goal with |- context [for_of ?items ?body ?s] =>
    destruct (emitGrades_events env course uid cookie finalGrade items s)
      as (notified & dropped & fbs & Hf & He & H2 & _);
    pose proof (emitGrades_cache_kept env course uid cookie finalGrade items s)
      as [Hstore Hdisk];
    unfold exec in He, Hstore, Hdisk;
    destruct (for_of items body s) as [s4 [[]|[]]] eqn:Hrun
  end; unfold exec in Hrun; rewrite Hrun in He, Hstore, Hdisk;
    simpl in He, Hstore, Hdisk; simpl; rewrite Hstore, Hdisk;
    (repeat split; [now right|]);
    exists notified, dropped, fbs; repeat split; assumption.
Qed.
End Fetched.
End GradesUpdate.

(** ** Inbox: running one forum of one user *)

(** The spec's words for the optimization gate: skip the post fetch when an
    old snapshot exists and the unread count is zero or equals the number of
    cached posts whose read flag is false. *)
Definition inbox_fetch_skipped (old_inbox_posts : option (list Post)) (unread : Z) : bool :=
  match old_inbox_posts with
  | None => false
  | Some posts =>
      (unread =? 0)%Z || (unread =? Z.of_nat (length (List.filter is_unread posts)))%Z
  end.

Section InboxRun.
Variable env : Env.
Variables (uid : string) (cookie : Cookie).

Abbreviation SI := (State (string * string) Post).

Definition inbox_path (forum : Forum) : string := uid +:+ "/" +:+ forumId forum +:+ ".json".

Definition inbox_event (post : Post) : Event := EvInboxMessage post uid.

(** The emission loop asks nothing and throws nothing: it emits the unread
    posts among the diffed ones, in order. *)
Lemma emitPosts_run (items : list Post) (st : SI) :
  for_of items (emitPost uid) st
  = (mkState (store st) (disk st)
             (emitted st ++ (inbox_event <$> List.filter is_unread items))
             (reported st) (logged st) (asked st),
     Normal tt).
Proof.
  revert st. induction items as [|p items IH]; intros st; simpl.
  - rewrite app_nil_r. now destruct st.
  - unfold bind, emitPost, is_unread at 1. destruct (isRead p); simpl.
    + apply IH.
    + rewrite IH. simpl. now rewrite <- app_assoc.
Qed.

Lemma get_default_Some (k : string * string) (st : SI) (posts : list Post) :
  get_default k None st = Some posts -> get_default k (Some []) st = Some posts.
Proof. unfold get_default. now destruct (store st !! k). Qed.

(** The gate of the code is the gate of the spec. *)
Lemma skipForum_run (forum : Forum) (st : SI) :
  skipForum uid forum (get_default (uid, forumId forum) None st) st
  = (st, Normal (inbox_fetch_skipped (get_default (uid, forumId forum) None st)
                                     (unreadCount forum))).
Proof.
  unfold skipForum, inbox_fetch_skipped.
  destruct (get_default (uid, forumId forum) None st) as [posts|] eqn:Hold; [|reflexivity].
  destruct (unreadCount forum =? 0)%Z; [reflexivity|].
  unfold getUnreadMessagesCount. rewrite bind_assoc, bind_gets.
  rewrite (get_default_Some _ _ _ Hold). reflexivity.
Qed.

Lemma inboxForum_run (forum : Forum) (st : SI) :
  inboxForum env uid cookie forum st
  = let old_inbox_posts := get_default (uid, forumId forum) None st in
    if inbox_fetch_skipped old_inbox_posts (unreadCount forum) then (st, Normal tt) else
    let st1 := record_call (CallPostsForInboxForum cookie (forumId forum)) st in
    match getPostsForInboxForum env (length (asked st)) cookie (forumId forum) with
    | Thrown e => (st1, Thrown e)
    | Normal new_inbox_posts =>
        let st2 := exec (set (uid, forumId forum) (Some new_inbox_posts)) st1 in
        match old_inbox_posts with
        | None => (exec (writeCacheFile (inbox_path forum) (Some new_inbox_posts)) st2,
                   Normal tt)
        | Some old_l =>
            if Nat.eqb (length new_inbox_posts) (length old_l) then (st2, Normal tt) else
            for_of (locateDifferenceInArrays post_id new_inbox_posts old_l) (emitPost uid)
                   (exec (writeCacheFile (inbox_path forum) (Some new_inbox_posts))
                         (exec (log (LogDebug uid)) st2))
        end
    end.
Proof.
  unfold inboxForum. rewrite bind_gets.
  rewrite (bind_normal _ _ _ (inbox_fetch_skipped
             (get_default (uid, forumId forum) None st) (unreadCount forum)))
    by (unfold outcome; now rewrite skipForum_run).
  unfold exec at 1. rewrite skipForum_run. cbv zeta. simpl fst.
  destruct (inbox_fetch_skipped _ _); [reflexivity|].
  rewrite bind_await.
  destruct (getPostsForInboxForum env _ cookie (forumId forum)) as [new|e]; [|reflexivity].
  unfold_effects. rewrite bind_modify.
  destruct (get_default (uid, forumId forum) None st) as [old_l|]; [|reflexivity].
  destruct (Nat.eqb _ _); [reflexivity|].
  now rewrite !bind_modify.
Qed.

(** The per-user handler catches every exception of the [try] block. The
    user's turn ends normally unless [JSON.stringify] cannot render the
    exception; its TypeError then leaves the handler. *)
Lemma inboxUser_outcome (st : SI) :
  outcome (inboxUser env uid) st
  = match outcome (inboxBody env uid) st with
    | Normal _ => Normal tt
    | Thrown e => if stringify_throws e then Thrown ErrOther else Normal tt
    end.
Proof.
  unfold outcome, inboxUser, try_catch.
  now destruct (inboxBody env uid st) as [st' [[]|[]]].
Qed.

(** A failure the handler can log does not stop the loop over the users. *)
Lemma inboxUser_caught (users : list string) (st : SI) e :
  outcome (inboxBody env uid) st = Thrown e ->
  stringify_throws e = false ->
  outcome (inboxUser env uid) st = Normal tt
  /\ for_of (uid :: users) (inboxUser env) st
     = for_of users (inboxUser env) (exec (inboxUser env uid) st).
Proof.
  intros Hbody Hrender.
  assert (Hout : outcome (inboxUser env uid) st = Normal tt).
  { now rewrite inboxUser_outcome, Hbody, Hrender. }
  split; [exact Hout|]. simpl. now rewrite (bind_normal _ _ _ tt).
Qed.

Section Forum.
Variables (forum : Forum) (st : SI).

Let st' := exec (inboxForum env uid cookie forum) st.

Lemma inbox_first_fetch (posts : list Post) :
  get_default (uid, forumId forum) None st = None ->
  getPostsForInboxForum env (length (asked st)) cookie (forumId forum) = Normal posts ->
  outcome (inboxForum env uid cookie forum) st = Normal tt
  /\ emitted st' = emitted st
  /\ disk st' = disk st ++ [(inbox_path forum, Some posts)]
  /\ store st' = <[(uid, forumId forum) := Some posts]> (store st).
Proof.
  intros Hold Hfetch. subst st'. unfold exec, outcome.
  rewrite inboxForum_run, Hold. simpl. rewrite Hfetch. now repeat split.
Qed.

Lemma inbox_same_length (old_l posts : list Post) :
  get_default (uid, forumId forum) None st = Some old_l ->
  inbox_fetch_skipped (Some old_l) (unreadCount forum) = false ->
  getPostsForInboxForum env (length (asked st)) cookie (forumId forum) = Normal posts ->
  length posts = length old_l ->
  outcome (inboxForum env uid cookie forum) st = Normal tt
  /\ emitted st' = emitted st
  /\ disk st' = disk st
  /\ store st' = <[(uid, forumId forum) := Some posts]> (store st).
Proof.
  intros Hold Hgate Hfetch Hlen. subst st'. unfold exec, outcome.
  rewrite inboxForum_run, Hold. cbv zeta. rewrite Hgate, Hfetch, Hlen, Nat.eqb_refl.
  now repeat split.
Qed.

(** The post fetch fails: the exception leaves the forum's turn, with the
    cache, the files and the events as before. *)
Lemma inbox_failed_fetch (e : Exn) :
  inbox_fetch_skipped (get_default (uid, forumId forum) None st) (unreadCount forum)
  = false ->
  getPostsForInboxForum env (length (asked st)) cookie (forumId forum) = Thrown e ->
  outcome (inboxForum env uid cookie forum) st = Thrown e /\ untouched st st'.
Proof.
  intros Hgate Hfetch. subst st'. unfold exec, outcome.
  rewrite inboxForum_run. cbv zeta. rewrite Hgate, Hfetch. now repeat split.
Qed.
End Forum.

(** An exception with code 401 leaving a user's turn is reported for that
    user. *)
Lemma inboxUser_reports_401 (st : SI) :
  outcome (inboxBody env uid) st = Thrown Err401 ->
  reported (exec (inboxUser env uid) st) = reported (exec (inboxBody env uid) st) ++ [uid]
  /\ untouched (exec (inboxBody env uid) st) (exec (inboxUser env uid) st).
Proof.
  intros Hthrown. unfold exec at 1 4, inboxUser.
  rewrite (try_catch_thrown _ _ _ Err401) by exact Hthrown. now repeat split.
Qed.
End InboxRun.

(** ** Fetch failures *)

(** C1 fails on this input: course ["c1"] was never cached, its only user's
    cookie is answered by a 401. The tick reports the user and emits nothing,
    and yet stores [null] under the course's key and writes [null] to the
    course's file: the file is not as it was before the tick. (With an
    array cached, and in the grades and inbox watchers, a failed fetch leaves
    cache and files alone: [announcements_failed_fetch_keeps_snapshot],
    [grades_failed_fetch], [inbox_failed_fetch].) *)
Theorem C1_failed_first_fetch_writes_null :
  let env := example_env (fun _ => Thrown Err401) (Normal ([], ""))
                         (fun _ => Thrown ErrOther) (Normal []) (fun _ => Normal []) in
  let st : State string Announcement := initial_state [] in
  let st' := exec (watchForAnnouncements env) st in
  get_or_null "c1" st = None
  /\ store st !! "c1" = None
  /\ disk st = []
  /\ outcome (watchForAnnouncements env) st = Normal tt
  /\ reported st' = ["u1"]
  /\ emitted st' = []
  /\ store st' !! "c1" = Some None
  /\ disk st' = [("c1", None)].
Proof. vm_compute. repeat split. Qed.

(** ** Isolation of targets *)

Definition forum_1 : Forum := {| forumId := "f1"; unreadCount := 1 |}.
Definition forum_2 : Forum := {| forumId := "f2"; unreadCount := 1 |}.

(** User ["u1"] has two inbox forums, both cached as empty; the post fetch
    of ["f1"] fails, that of ["f2"] would deliver one unread post. *)
Definition inbox_env : Env :=
  example_env (fun _ => Normal []) (Normal ([], "")) (fun _ => Thrown ErrOther)
    (Normal [forum_1; forum_2])
    (fun forum_id => if bool_decide (forum_id = "f1") then Thrown ErrOther
                     else Normal [post_c]).

Definition inbox_state : State (string * string) Post :=
  initial_state [(("u1", "f1"), Some []); (("u1", "f2"), Some [])].

(** C3, as stated, fails for user-forum pairs: the failure on (u1, f1) ends
    the user's turn, so (u1, f2) is not processed in this tick (no fetch, no
    snapshot update, no event), although its own processing would have
    fetched one post and emitted it. *)
Lemma C3_inbox_forum_failure_skips_later_forums :
  let st' := exec (watchForInboxMessages inbox_env) inbox_state in
  outcome (watchForInboxMessages inbox_env) inbox_state = Normal tt
  /\ asked st' = [CallAllActiveUsers; CallUserCookie "u1"; CallUserInbox "cookie-of-u1";
                  CallPostsForInboxForum "cookie-of-u1" "f1"]
  /\ store st' !! ("u1", "f2") = Some (Some [])
  /\ emitted st' = []
  /\ store (exec (inboxForum inbox_env "u1" "cookie-of-u1" forum_2) st') !! ("u1", "f2")
     = Some (Some [post_c])
  /\ emitted (exec (inboxForum inbox_env "u1" "cookie-of-u1" forum_2) st')
     = [EvInboxMessage post_c "u1"].
Proof. vm_compute. repeat split. Qed.

(** The services of the inbox watcher reject only with errors that
    [JSON.stringify] renders (or with a 401, which is not rendered). *)
Definition inbox_failures_render (env : Env) : Prop :=
  (forall n uid e, getUserCookie env n uid = Thrown e -> stringify_throws e = false)
  /\ (forall n cookie e, getUserInbox env n cookie = Thrown e -> stringify_throws e = false)
  /\ (forall n cookie forum_id e,
        getPostsForInboxForum env n cookie forum_id = Thrown e -> stringify_throws e = false).

Lemma inboxBody_throws_rendered (env : Env) uid :
  inbox_failures_render env ->
  throws_only (fun e => stringify_throws e = false) (inboxBody env uid).
Proof.
  intros (Hck & Hinbox & Hposts).
  unfold inboxBody, inboxForum, skipForum, getUnreadMessagesCount, emitPost.
  throws_structure; apply throws_only_await; intros n e; eauto.
Qed.

Lemma inboxUser_completes (env : Env) uid :
  inbox_failures_render env -> completes (inboxUser env uid).
Proof.
  intros Henv st. rewrite inboxUser_outcome.
  destruct (outcome (inboxBody env uid) st) as [[]|e] eqn:Hbody; [reflexivity|].
  now rewrite (inboxBody_throws_rendered env uid Henv st e Hbody).
Qed.

(** C3 (amended): within one tick, a failure while processing one target
    (one course for announcements, one course-user pair for grades, one user
    for inbox messages) whose exception has code 401 or can be rendered in
    the log line of the target's handler never prevents the remaining
    targets from being processed. For announcements this is every failure
    inside a course: the loop over courses is the fold of the courses' own
    state transitions and ends normally. For grades and inbox messages the
    handler of the failing target ends normally and the loop goes on with
    the targets after it; when the services reject only with such
    exceptions, the loops over users and over courses are folds as well. In
    the inbox watcher the boundary is the user: the forums of one user share
    one handler. *)
Theorem C3_target_isolation (env : Env) :
  (forall courses st,
     for_of courses (announcementsTarget env) st
     = (fold_left (fun s c => exec (announcementsTarget env c) s) courses st, Normal tt))
  /\ (forall course_id course uid users st e,
        outcome (gradesBody env course_id course uid) st = Thrown e ->
        template_throws e || stringify_throws e = false ->
        outcome (gradesTarget env course_id course uid) st = Normal tt
        /\ for_of (uid :: users) (gradesTarget env course_id course) st
           = for_of users (gradesTarget env course_id course)
               (exec (gradesTarget env course_id course uid) st))
  /\ (forall uid users st e,
        outcome (inboxBody env uid) st = Thrown e ->
        stringify_throws e = false ->
        outcome (inboxUser env uid) st = Normal tt
        /\ for_of (uid :: users) (inboxUser env) st
           = for_of users (inboxUser env) (exec (inboxUser env uid) st))
  /\ (grades_failures_render env ->
      (forall course_id course users st,
         for_of users (gradesTarget env course_id course) st
         = (fold_left (fun s u => exec (gradesTarget env course_id course u) s) users st,
            Normal tt))
      /\ (forall courses st,
            for_of courses (gradesCourse env) st
            = (fold_left (fun s c => exec (gradesCourse env c) s) courses st, Normal tt)))
  /\ (inbox_failures_render env ->
      forall users st,
        for_of users (inboxUser env) st
        = (fold_left (fun s u => exec (inboxUser env u) s) users st, Normal tt)).
Proof.
  split; [|split; [|split; [|split]]].
  - intros. apply for_of_fold. apply announcementsTarget_completes.
  - intros. now apply gradesTarget_caught with (e := e).
  - intros. now apply inboxUser_caught with (e := e).
  - intros Henv. split; intros; apply for_of_fold; intros x.
    + now apply gradesTarget_completes.
    + now apply gradesCourse_completes.
  - intros Henv users st. apply for_of_fold. intros u. now apply inboxUser_completes.
Qed.

Lemma C3_target_isolation_witness :
  outcome (inboxBody inbox_env "u1") inbox_state = Thrown ErrOther
  /\ stringify_throws ErrOther = false
  /\ outcome (inboxUser inbox_env "u1") inbox_state = Normal tt
  /\ for_of ["u1"; "u2"] (inboxUser inbox_env) inbox_state
     = for_of ["u2"] (inboxUser inbox_env) (exec (inboxUser inbox_env "u1") inbox_state).
Proof.
  split; [vm_compute; reflexivity|]. split; [reflexivity|].
  apply (proj1 (proj2 (proj2 (C3_target_isolation inbox_env)))
           "u1" ["u2"] inbox_state ErrOther); vm_compute; reflexivity.
Defined.

(** ** Enrichment failures in the grades watcher *)

Definition grade_1 : Grade :=
  {| grade_id := "g1"; status := "PUBLISHED"; userLastSeenDate := None;
     assessment_id := "a1" |}.
Definition grade_2 : Grade :=
  {| grade_id := "g2"; status := "PUBLISHED"; userLastSeenDate := None;
     assessment_id := "a2" |}.
Definition grade_seen : Grade :=
  {| grade_id := "g3"; status := "PUBLISHED";
     userLastSeenDate := Some (IsoTimestamp (Ascii.ascii_of_nat 50) "024-01-02T10:00:00.000Z");
     assessment_id := "a3" |}.
Definition grade_draft : Grade :=
  {| grade_id := "g4"; status := "DRAFT"; userLastSeenDate := None;
     assessment_id := "a4" |}.

Definition example_feedback (assessment : string) : Feedback :=
  {| fb_assessment := assessment; fb_body := "well done";
     fb_metadata := feedback_metadata example_course "u1" "A" |}.

(** Two new grades; the feedback fetch fails for the first one only. *)
Definition grades_env : Env :=
  example_env (fun _ => Normal []) (Normal ([grade_1; grade_2], "A"))
    (fun assessment => if bool_decide (assessment = "a1") then Thrown ErrOther
                       else Normal (example_feedback assessment))
    (Normal []) (fun _ => Normal []).

Definition grades_state : State (string * string) Grade :=
  initial_state [(("c1", "u1"), Some [])].

(** C4, as stated, fails: the enrichment of the first diffed grade fails and
    the event of its sibling is dropped with it, although the sibling's own
    enrichment would have succeeded. *)
Lemma C4_enrichment_failure_drops_sibling :
  let st' := exec (watchForGrades grades_env) grades_state in
  locateDifferenceInArrays grade_id [grade_1; grade_2] [] = [grade_1; grade_2]
  /\ outcome (watchForGrades grades_env) grades_state = Normal tt
  /\ emitted st' = []
  /\ emitted (exec (emitGrade grades_env example_course "u1" "cookie-of-u1" "A" grade_2) st')
     = [EvGrade (example_feedback "a2")].
Proof. vm_compute. repeat split. Qed.

(** C4 (amended): when the enrichment of one diffed, unseen grade fails, the
    emission loop of that target ends there: that grade's event and the
    events of the diffed grades after it are dropped, the events of the
    grades before it stay emitted. When the exception has code 401 or can be
    rendered in the handler's log line, it is caught by the handler of the
    course-user pair: the pair's turn ends normally with the events of the
    grades before the failing one, and the tick goes on with the users after
    it. *)
Theorem C4_enrichment_failure_ends_emission (env : Env) (course_id : string)
    (course : Course) (uid : string) (cookie : Cookie) (finalGrade : string)
    (pre post : list Grade) (g : Grade) (st : State (string * string) Grade) (e : Exn) :
  let emit_one := emitGrade env course uid cookie finalGrade in
  let st1 := exec (for_of pre emit_one) st in
  outcome (for_of pre emit_one) st = Normal tt ->
  outcome (emit_one g) st1 = Thrown e ->
  for_of (pre ++ g :: post) emit_one st = (exec (emit_one g) st1, Thrown e)
  /\ emitted (exec (emit_one g) st1) = emitted st1
  /\ (exists feedbacks,
        emitted st1 = emitted st ++ (EvGrade <$> feedbacks)
        /\ Forall2 (feedback_of env course uid cookie finalGrade)
                   (List.filter (is_unseen) pre) feedbacks)
  /\ (forall st0 grades old_l users,
        getUserCookie env (length (asked st0)) uid = Normal (Some cookie) ->
        getAllGrades env (S (length (asked st0))) (slugId course) cookie (courseCode course)
        = Normal (grades, finalGrade) ->
        get_default (course_id, uid) None st0 = Some old_l ->
        length (List.filter is_published grades) <> length old_l ->
        locateDifferenceInArrays grade_id (List.filter is_published grades) old_l
        = pre ++ g :: post ->
        st = exec (writeCacheFile (grades_path course_id uid)
                     (Some (List.filter is_published grades)))
               (exec (set (course_id, uid) (Some (List.filter is_published grades)))
                  (after_grades_fetch course uid st0 cookie)) ->
        template_throws e || stringify_throws e = false ->
        outcome (gradesBody env course_id course uid) st0 = Thrown e
        /\ outcome (gradesTarget env course_id course uid) st0 = Normal tt
        /\ emitted (exec (gradesTarget env course_id course uid) st0) = emitted st1
        /\ for_of (uid :: users) (gradesTarget env course_id course) st0
           = for_of users (gradesTarget env course_id course)
               (exec (gradesTarget env course_id course uid) st0)).
Proof.
  intros emit_one st1 Hpre Hg.
  assert (Hloop : for_of (pre ++ g :: post) emit_one st = (exec (emit_one g) st1, Thrown e))
    by now apply for_of_stops.
  assert (Hsame : emitted (exec (emit_one g) st1) = emitted st1).
  { revert Hg. unfold outcome, exec, emit_one.
    destruct (userLastSeenDate g) as [ts|] eqn:Hseen.
    + rewrite emitGrade_seen by congruence. discriminate.
    + rewrite emitGrade_unseen by assumption.
      destruct (getUserId env _ cookie) as [halo_uid|]; [|reflexivity].
      cbv zeta. destruct (getGradeFeedback env _ cookie _ halo_uid _);
        [discriminate | reflexivity]. }
  split; [exact Hloop|]. split; [exact Hsame|]. split.
  - destruct (emitGrades_events env course uid cookie finalGrade pre st)
      as (notified & dropped & fbs & Hf & He & H2 & Hn & _).
    specialize (Hn Hpre). subst dropped. rewrite app_nil_r in Hf.
    exists fbs. rewrite Hf. split; assumption.
  - intros st0 grades old_l users Hck Hfetch Hold Hlen Hdiff Hst Hrender.
    assert (Hbody : gradesBody env course_id course uid st0
                    = (exec (emit_one g) st1, Thrown e)).
    { rewrite (gradesBody_run env course_id course uid st0 cookie grades finalGrade
                 Hck Hfetch).
      cbv zeta. rewrite Hold.
      destruct (Nat.eqb_spec (length (List.filter is_published grades)) (length old_l))
        as [Heq|_]; [contradiction|].
      rewrite Hdiff. fold emit_one. rewrite <- Hst.
      exact Hloop. }
    assert (Hout : outcome (gradesBody env course_id course uid) st0 = Thrown e).
    { unfold outcome. now rewrite Hbody. }
    destruct (gradesTarget_caught env course uid course_id users st0 e Hout Hrender)
      as [Hnormal Hnext].
    repeat split; try assumption.
    unfold exec at 1, gradesTarget, try_catch. rewrite Hbody.
    rewrite <- Hsame.
    destruct e; try discriminate Hrender; reflexivity.
Qed.

Lemma C4_enrichment_failure_ends_emission_witness :
  let st := exec (writeCacheFile "c1/u1.json" (Some [grade_1; grade_2]))
              (exec (set ("c1", "u1") (Some [grade_1; grade_2]))
                 (after_grades_fetch example_course "u1" grades_state "cookie-of-u1")) in
  let emit_one := emitGrade grades_env example_course "u1" "cookie-of-u1" "A" in
  for_of ([] ++ grade_1 :: [grade_2]) emit_one st
  = (exec (emit_one grade_1) st, Thrown ErrOther)
  /\ outcome (gradesTarget grades_env "c1" example_course "u1") grades_state = Normal tt
  /\ emitted (exec (gradesTarget grades_env "c1" example_course "u1") grades_state) = []
  /\ for_of ["u1"; "u2"] (gradesTarget grades_env "c1" example_course) grades_state
     = for_of ["u2"] (gradesTarget grades_env "c1" example_course)
         (exec (gradesTarget grades_env "c1" example_course "u1") grades_state).
Proof.
  intros st emit_one.
  assert (Hpre : outcome (for_of [] emit_one) st = Normal tt) by reflexivity.
  assert (Hg : outcome (emit_one grade_1) (exec (for_of [] emit_one) st) = Thrown ErrOther)
    by (vm_compute; reflexivity).
  pose proof (C4_enrichment_failure_ends_emission grades_env "c1" example_course
                "u1" "cookie-of-u1" "A" [] [grade_2] grade_1 st ErrOther
                Hpre Hg) as (Hloop & _ & _ & Htarget).
  split; [exact Hloop|].
  destruct (Htarget grades_state [grade_1; grade_2] [] ["u2"]) as (_ & Hn & He & Hnext).
  - vm_compute; reflexivity.
  - vm_compute; reflexivity.
  - vm_compute; reflexivity.
  - vm_compute; discriminate.
  - vm_compute; reflexivity.
  - vm_compute; reflexivity.
  - reflexivity.
  - split; [exact Hn|]. split; [|exact Hnext]. rewrite He. vm_compute. reflexivity.
Defined.

(** ** First fetch and size-unchanged fetch *)

(** C5: when the cached snapshot of a target is [null] at the start of its
    processing, a successful fetch emits no event for that target and the
    new snapshot is written to the target's file (and set in the cache), in
    the announcements, grades and inbox watchers alike. For grades the new
    snapshot is the PUBLISHED part of what was fetched. *)
Theorem C5_first_fetch_persists_silently (env : Env) :
  (forall class_id course (st : State string Announcement) l,
     getActiveUsersInClass env (length (asked st)) class_id <> [] ->
     get_or_null class_id st = None ->
     snd (course_fetch env class_id course st) = Normal (Some l) ->
     let st' := exec (announcementsTarget env (class_id, course)) st in
     emitted st' = emitted st
     /\ disk st' = disk st ++ [(class_id, Some l)]
     /\ store st' = <[class_id := Some l]> (store st))
  /\ (forall course_id course uid (st : State (string * string) Grade)
             cookie grades finalGrade,
        get_default (course_id, uid) None st = None ->
        getUserCookie env (length (asked st)) uid = Normal (Some cookie) ->
        getAllGrades env (S (length (asked st))) (slugId course) cookie (courseCode course)
        = Normal (grades, finalGrade) ->
        let st' := exec (gradesTarget env course_id course uid) st in
        emitted st' = emitted st
        /\ disk st' = disk st ++ [(grades_path course_id uid,
                                   Some (List.filter is_published grades))]
        /\ store st' = <[(course_id, uid) := Some (List.filter is_published grades)]>
                         (store st))
  /\ (forall uid cookie forum (st : State (string * string) Post) posts,
        get_default (uid, forumId forum) None st = None ->
        getPostsForInboxForum env (length (asked st)) cookie (forumId forum)
        = Normal posts ->
        let st' := exec (inboxForum env uid cookie forum) st in
        outcome (inboxForum env uid cookie forum) st = Normal tt
        /\ emitted st' = emitted st
        /\ disk st' = disk st ++ [(inbox_path uid forum, Some posts)]
        /\ store st' = <[(uid, forumId forum) := Some posts]> (store st)).
Proof.
  split; [|split].
  - intros class_id course st l Husers Hold Hfetch.
    exact (announcements_first_fetch env class_id course st Husers l Hold Hfetch).
  - intros course_id course uid st cookie grades finalGrade Hold Hck Hfetch.
    exact (grades_first_fetch env course_id course uid st cookie grades finalGrade
             Hck Hfetch Hold).
  - intros uid cookie forum st posts Hold Hfetch.
    exact (inbox_first_fetch env uid cookie forum st posts Hold Hfetch).
Qed.

Definition ann_old : Announcement :=
  {| ann_id := "1"; publishDate := DateString "2023-12-31T23:00:00.000Z";
     startDate := DateNull; ann_title := "welcome" |}.

(** The remote answers every fetch: one announcement, one draft and two
    published grades, one forum with one unread post. *)
Definition success_env : Env :=
  example_env (fun _ => Normal [ann_1h])
    (Normal ([grade_draft; grade_1; grade_seen], "A"))
    (fun assessment => Normal (example_feedback assessment))
    (Normal [forum_1]) (fun _ => Normal [post_c]).

Lemma C5_first_fetch_persists_silently_witness :
  (let st' := exec (announcementsTarget success_env ("c1", example_course))
                   (initial_state []) in
   emitted st' = [] /\ disk st' = [("c1", Some [ann_1h])]
   /\ store st' = <["c1" := Some [ann_1h]]> ∅)
  /\ (let st' := exec (gradesTarget success_env "c1" example_course "u1")
                      (initial_state []) in
      emitted st' = []
      /\ disk st' = [("c1/u1.json", Some [grade_1; grade_seen])]
      /\ store st' = <[("c1", "u1") := Some [grade_1; grade_seen]]> ∅)
  /\ (let st' := exec (inboxForum success_env "u1" "cookie-of-u1" forum_1)
                      (initial_state []) in
      outcome (inboxForum success_env "u1" "cookie-of-u1" forum_1) (initial_state [])
      = Normal tt
      /\ emitted st' = []
      /\ disk st' = [("u1/f1.json", Some [post_c])]
      /\ store st' = <[("u1", "f1") := Some [post_c]]> ∅).
Proof.
  destruct (C5_first_fetch_persists_silently success_env) as (Hann & Hgrades & Hinbox).
  split; [|split].
  - apply (Hann "c1" example_course (initial_state []) [ann_1h]);
      [discriminate | reflexivity | reflexivity].
  - apply (Hgrades "c1" example_course "u1" (initial_state []) "cookie-of-u1"
             [grade_draft; grade_1; grade_seen] "A"); reflexivity.
  - apply (Hinbox "u1" "cookie-of-u1" forum_1 (initial_state []) [post_c]); reflexivity.
Defined.

(** C6: with a non-null cached snapshot, a successful fetch whose new
    snapshot has the length of the cached one emits no event and writes no
    file for that target, whatever its members are, and the in-memory
    snapshot is replaced by the new one. *)
Theorem C6_same_length_replaces_silently (env : Env) :
  (forall class_id course (st : State string Announcement) old_l l,
     getActiveUsersInClass env (length (asked st)) class_id <> [] ->
     get_or_null class_id st = Some old_l ->
     snd (course_fetch env class_id course st) = Normal (Some l) ->
     length l = length old_l ->
     let st' := exec (announcementsTarget env (class_id, course)) st in
     emitted st' = emitted st
     /\ disk st' = disk st
     /\ store st' = <[class_id := Some l]> (store st))
  /\ (forall course_id course uid (st : State (string * string) Grade)
             cookie grades finalGrade old_l,
        get_default (course_id, uid) None st = Some old_l ->
        getUserCookie env (length (asked st)) uid = Normal (Some cookie) ->
        getAllGrades env (S (length (asked st))) (slugId course) cookie (courseCode course)
        = Normal (grades, finalGrade) ->
        length (List.filter is_published grades) = length old_l ->
        let st' := exec (gradesTarget env course_id course uid) st in
        emitted st' = emitted st
        /\ disk st' = disk st
        /\ store st' = <[(course_id, uid) := Some (List.filter is_published grades)]>
                         (store st))
  /\ (forall uid cookie forum (st : State (string * string) Post) old_l posts,
        get_default (uid, forumId forum) None st = Some old_l ->
        inbox_fetch_skipped (Some old_l) (unreadCount forum) = false ->
        getPostsForInboxForum env (length (asked st)) cookie (forumId forum)
        = Normal posts ->
        length posts = length old_l ->
        let st' := exec (inboxForum env uid cookie forum) st in
        outcome (inboxForum env uid cookie forum) st = Normal tt
        /\ emitted st' = emitted st
        /\ disk st' = disk st
        /\ store st' = <[(uid, forumId forum) := Some posts]> (store st)).
Proof.
  split; [|split].
  - intros class_id course st old_l l Husers Hold Hfetch Hlen.
    exact (announcements_same_length env class_id course st Husers old_l l
             Hold Hfetch Hlen).
  - intros course_id course uid st cookie grades finalGrade old_l Hold Hck Hfetch Hlen.
    exact (grades_same_length env course_id course uid st cookie grades finalGrade
             Hck Hfetch old_l Hold Hlen).
  - intros uid cookie forum st old_l posts Hold Hgate Hfetch Hlen.
    exact (inbox_same_length env uid cookie forum st old_l posts Hold Hgate Hfetch Hlen).
Qed.

Lemma C6_same_length_replaces_silently_witness :
  (let st := initial_state [("c1", Some [ann_old])] in
   let st' := exec (announcementsTarget success_env ("c1", example_course)) st in
   emitted st' = [] /\ disk st' = []
   /\ store st' = <["c1" := Some [ann_1h]]> (store st))
  /\ (let st := initial_state [(("c1", "u1"), Some [grade_2; grade_1])] in
      let st' := exec (gradesTarget success_env "c1" example_course "u1") st in
      emitted st' = [] /\ disk st' = []
      /\ store st' = <[("c1", "u1") := Some [grade_1; grade_seen]]> (store st))
  /\ (let st := initial_state [(("u1", "f1"), Some [post_b])] in
      let st' := exec (inboxForum success_env "u1" "cookie-of-u1" forum_1) st in
      outcome (inboxForum success_env "u1" "cookie-of-u1" forum_1) st = Normal tt
      /\ emitted st' = [] /\ disk st' = []
      /\ store st' = <[("u1", "f1") := Some [post_c]]> (store st)).
Proof.
  destruct (C6_same_length_replaces_silently success_env) as (Hann & Hgrades & Hinbox).
  split; [|split].
  - apply (Hann "c1" example_course (initial_state [("c1", Some [ann_old])])
             [ann_old] [ann_1h]); [discriminate | reflexivity ..].
  - apply (Hgrades "c1" example_course "u1"
             (initial_state [(("c1", "u1"), Some [grade_2; grade_1])]) "cookie-of-u1"
             [grade_draft; grade_1; grade_seen] "A" [grade_2; grade_1]); reflexivity.
  - apply (Hinbox "u1" "cookie-of-u1" forum_1
             (initial_state [(("u1", "f1"), Some [post_b])]) [post_b] [post_c]);
      reflexivity.
Defined.

(** ** The inbox gate *)

Lemma inbox_fetch_skipped_spec (posts : list Post) (unread : Z) :
  inbox_fetch_skipped (Some posts) unread = true
  <-> unread = 0%Z \/ unread = Z.of_nat (length (List.filter is_unread posts)).
Proof. unfold inbox_fetch_skipped. now rewrite orb_true_iff, !Z.eqb_eq. Qed.

Lemma inboxForum_asks (env : Env) (uid : string) (cookie : Cookie) (forum : Forum)
    (st : State (string * string) Post) :
  asked (exec (inboxForum env uid cookie forum) st)
  = asked st ++
    (if inbox_fetch_skipped (get_default (uid, forumId forum) None st) (unreadCount forum)
     then [] else [CallPostsForInboxForum cookie (forumId forum)]).
Proof.
  unfold exec. rewrite inboxForum_run. cbv zeta.
  destruct (inbox_fetch_skipped _ _); [simpl; now rewrite app_nil_r|].
  destruct (getPostsForInboxForum env _ cookie (forumId forum)) as [new|e]; [|reflexivity].
  destruct (get_default (uid, forumId forum) None st) as [old_l|]; [|reflexivity].
  destruct (Nat.eqb _ _); [reflexivity|].
  rewrite emitPosts_run. reflexivity.
Qed.

(** C7: in the inbox watcher, with a non-null snapshot for the (user, forum)
    key, the post fetch is skipped (the forum's turn does nothing at all)
    exactly when the forum's unreadCount is zero or equals the number of
    cached posts whose read flag is false; with any other unreadCount the
    fetch is issued; with no snapshot the fetch is always issued. *)
Theorem C7_inbox_gate (env : Env) (uid : string) (cookie : Cookie) (forum : Forum)
    (st : State (string * string) Post) :
  let old_inbox_posts := get_default (uid, forumId forum) None st in
  let st' := exec (inboxForum env uid cookie forum) st in
  let fetch := CallPostsForInboxForum cookie (forumId forum) in
  (forall posts, old_inbox_posts = Some posts ->
     let unchanged :=
       unreadCount forum = 0%Z
       \/ unreadCount forum = Z.of_nat (length (List.filter is_unread posts)) in
     (unchanged -> inboxForum env uid cookie forum st = (st, Normal tt))
     /\ (~ unchanged -> asked st' = asked st ++ [fetch])
     /\ (asked st' = asked st <-> unchanged))
  /\ (old_inbox_posts = None -> asked st' = asked st ++ [fetch]).
Proof.
  intros old_inbox_posts st' fetch.
  pose proof (inboxForum_asks env uid cookie forum st) as Hasks.
  fold old_inbox_posts st' fetch in Hasks. split.
  - intros posts Hold unchanged. rewrite Hold in Hasks.
    pose proof (inbox_fetch_skipped_spec posts (unreadCount forum)) as Hspec.
    fold unchanged in Hspec.
    destruct (inbox_fetch_skipped (Some posts) (unreadCount forum)) eqn:Hgate.
    + assert (Hu : unchanged) by now apply Hspec.
      split; [|split].
      * intros _. rewrite inboxForum_run. fold old_inbox_posts.
        cbv zeta. now rewrite Hold, Hgate.
      * intros Hn. now destruct Hn.
      * rewrite Hasks, app_nil_r. tauto.
    + assert (Hu : ~ unchanged) by (rewrite <- Hspec; discriminate).
      split; [|split].
      * intros Hyes. now destruct Hu.
      * intros _. exact Hasks.
      * split; [|intros Hyes; now destruct Hu].
        rewrite Hasks. intros Heq. apply (f_equal length) in Heq.
        rewrite length_app in Heq. simpl in Heq. lia.
  - intros Hold. now rewrite Hold in Hasks.
Qed.

Lemma C7_inbox_gate_witness :
  let st : State (string * string) Post :=
    initial_state [(("u1", "f1"), Some [post_c]); (("u1", "f2"), Some [post_b])] in
  inboxForum success_env "u1" "cookie-of-u1" forum_1 st = (st, Normal tt)
  /\ asked (exec (inboxForum success_env "u1" "cookie-of-u1" forum_2) st)
     = asked st ++ [CallPostsForInboxForum "cookie-of-u1" "f2"]
  /\ asked (exec (inboxForum success_env "u1" "cookie-of-u1" forum_2) (initial_state []))
     = [CallPostsForInboxForum "cookie-of-u1" "f2"].
Proof.
  intros st. split; [|split].
  - apply (proj1 (proj1 (C7_inbox_gate success_env "u1" "cookie-of-u1" forum_1 st)
                        [post_c] eq_refl)).
    right. reflexivity.
  - apply (proj1 (proj2 (proj1 (C7_inbox_gate success_env "u1" "cookie-of-u1" forum_2 st)
                               [post_b] eq_refl))).
    intros [H0 | H1]; discriminate.
  - apply (proj2 (C7_inbox_gate success_env "u1" "cookie-of-u1" forum_2 (initial_state []))).
    reflexivity.
Defined.

(** ** Grades: published and unseen *)






(** ** The end-to-end scenario of the specification *)

(** Tick 1 fetches [[ann_old]] for a course never cached: no event, the
    snapshot is written. Tick 2 fetches [[ann_old; ann_1h]]: the size changed,
    the diff is [[ann_1h]], published one hour ago, so one event is emitted
    and the new snapshot is written. *)
Example two_ticks_scenario :
  let env1 := example_env (fun _ => Normal [ann_old]) (Normal ([], ""))
                          (fun _ => Thrown ErrOther) (Normal []) (fun _ => Normal []) in
  let env2 := example_env (fun _ => Normal [ann_old; ann_1h]) (Normal ([], ""))
                          (fun _ => Thrown ErrOther) (Normal []) (fun _ => Normal []) in
  let st1 := exec (watchForAnnouncements env1) (initial_state []) in
  let st2 := exec (watchForAnnouncements env2) st1 in
  emitted st1 = []
  /\ disk st1 = [("c1", Some [ann_old])]
  /\ locateDifferenceInArrays ann_id [ann_old; ann_1h] [ann_old] = [ann_1h]
  /\ emitted st2 = [EvAnnouncement ann_1h]
  /\ disk st2 = [("c1", Some [ann_old]); ("c1", Some [ann_old; ann_1h])]
  /\ get_or_null "c1" st2 = Some [ann_old; ann_1h].
Proof. vm_compute. repeat split. Qed.

(** * Further properties of the code *)

(** ** DiffEngine with arbitrary ids *)

Section DiffEngineMore.
Context {A : Type} (id_of : A -> string).

Lemma find_by_id_is_Some (a1 : list A) (n : string) :
  n ∈ map id_of a1 -> is_Some (find_by_id id_of a1 n).
Proof.
  unfold find_by_id. induction a1 as [|o a1 IH]; simpl; intros Hin.
  - inversion Hin.
  - destruct (bool_decide (id_of o = n)) eqn:Heq; [eauto|].
    apply bool_decide_eq_false_1 in Heq.
    apply elem_of_cons in Hin as [Hin|Hin]; [congruence | auto].
Qed.

Lemma find_by_id_id (a1 : list A) (n : string) (o : A) :
  find_by_id id_of a1 n = Some o -> id_of o = n.
Proof.
  unfold find_by_id. intros Hfind. apply find_some in Hfind as [_ Heq].
  now apply bool_decide_eq_true_1 in Heq.
Qed.

Lemma omap_total_length {X Y} (f : X -> option Y) (l : list X) :
  Forall (fun x => is_Some (f x)) l -> length (omap f l) = length l.
Proof.
  induction 1 as [|x l [y Hy] _ IH]; [reflexivity|].
  change (omap f (x :: l)) with
    (match f x with Some y => y :: omap f l | None => omap f l end).
  rewrite Hy. simpl. now rewrite IH.
Qed.

Lemma length_filter_map {X Y} (f : X -> Y) (P : Y -> Prop) `{!forall y, Decision (P y)}
    (l : list X) :
  length (filter P (map f l)) = length (filter (fun x => P (f x)) l).
Proof.
  induction l as [|x l IH]; [reflexivity|]. simpl map. rewrite !filter_cons.
  destruct (decide (P (f x))); simpl; now rewrite IH.
Qed.

(** When every id of [a1] is an id of [a2], nothing is new. *)
Lemma locateDifferenceInArrays_all_known (a1 a2 : list A) :
  (forall o, o ∈ a1 -> id_of o ∈ id_set id_of a2) ->
  locateDifferenceInArrays id_of a1 a2 = [].
Proof.
  intros Hknown. rewrite locateDifferenceInArrays_first.
  assert (Hids : id_array id_of a1 a2 = []); [|now rewrite Hids].
  unfold id_array. induction a1 as [|o a1 IH]; [reflexivity|].
  simpl map. rewrite filter_cons.
  destruct (decide (id_of o ∉ id_set id_of a2)) as [Hn|_].
  - destruct Hn. apply Hknown. left.
  - apply IH. intros o' Ho'. apply Hknown. now right.
Qed.

(** X1: an array has no difference with itself, and the empty array has no
    difference with any array, whatever the ids are. *)
Theorem X1_diff_self_and_empty (a1 a2 : list A) :
  locateDifferenceInArrays id_of a1 a1 = []
  /\ locateDifferenceInArrays id_of a1 (a2 ++ a1) = []
  /\ locateDifferenceInArrays id_of [] a2 = [].
Proof.
  split; [|split].
  - apply locateDifferenceInArrays_all_known. intros o Ho.
    apply elem_of_id_set. eauto.
  - apply locateDifferenceInArrays_all_known. intros o Ho.
    apply elem_of_id_set. exists o. split; [|reflexivity].
    apply elem_of_app. now right.
  - reflexivity.
Qed.

(** X2: with any ids, also repeated ones: the result has one item for each
    position of [a1] whose id [a2] lacks; each item of the result is an item
    of [a1] whose id [a2] lacks; and each id of [a1] that [a2] lacks is the id
    of an item of the result. *)
Theorem X2_diff_any_ids (a1 a2 : list A) :
  length (locateDifferenceInArrays id_of a1 a2)
  = length (filter (fun o => id_of o ∉ id_set id_of a2) a1)
  /\ (forall o, o ∈ locateDifferenceInArrays id_of a1 a2 ->
                o ∈ a1 /\ id_of o ∉ id_set id_of a2)
  /\ (forall o, o ∈ a1 -> id_of o ∉ id_set id_of a2 ->
                exists o', o' ∈ locateDifferenceInArrays id_of a1 a2
                           /\ id_of o' = id_of o).
Proof.
  split; [|split].
  - rewrite locateDifferenceInArrays_first. unfold id_array.
    rewrite omap_total_length;
      [exact (length_filter_map id_of (fun n => n ∉ id_set id_of a2) a1)|].
    apply Forall_forall. intros n Hn. apply list_elem_of_filter in Hn as [_ Hn].
    now apply find_by_id_is_Some.
  - intros o. apply locateDifferenceInArrays_sound.
  - intros o Hin Hnew.
    destruct (find_by_id_is_Some a1 (id_of o)) as [o' Ho'].
    { apply list_elem_of_fmap. eauto. }
    exists o'. split; [|now apply (find_by_id_id a1)].
    rewrite locateDifferenceInArrays_first. apply list_elem_of_omap.
    exists (id_of o). split; [|exact Ho'].
    unfold id_array. apply list_elem_of_filter. split; [exact Hnew|].
    apply list_elem_of_fmap. eauto.
Qed.
End DiffEngineMore.

(** ** The directory at the start of a tick *)

(** What leaves a handler is the TypeError of its log line. *)
Lemma gradesTarget_throws (env : Env) course_id course uid :
  throws_only (fun e => e = ErrOther) (gradesTarget env course_id course uid).
Proof.
  intros st e. rewrite gradesTarget_outcome.
  destruct (outcome (gradesBody env course_id course uid) st) as [[]|e'];
    [discriminate|].
  destruct (template_throws e' || stringify_throws e'); congruence.
Qed.

Lemma inboxUser_throws (env : Env) uid :
  throws_only (fun e => e = ErrOther) (inboxUser env uid).
Proof.
  intros st e. rewrite inboxUser_outcome.
  destruct (outcome (inboxBody env uid) st) as [[]|e']; [discriminate|].
  destruct (stringify_throws e'); congruence.
Qed.

Lemma gradesCourse_throws (env : Env) (entry : string * Course) :
  throws_only (fun e => e = ErrOther) (gradesCourse env entry).
Proof.
  destruct entry as [course_id course]. unfold gradesCourse.
  apply throws_only_bind; [apply throws_only_ask | intros users].
  apply throws_only_for_of. intros uid. apply gradesTarget_throws.
Qed.

Lemma normal_or_thrown (c : Completion unit) :
  (forall e, c = Thrown e -> e = ErrOther) -> c = Normal tt \/ c = Thrown ErrOther.
Proof.
  destruct c as [[]|e]; intros He; [now left | right].
  now rewrite (He e eq_refl).
Qed.

(** X3: a tick whose first call, the enumeration of the active courses (of
    the active users, for the inbox), rejects ends with that exception, and
    nothing but that call has happened then. Otherwise an announcements tick
    completes normally. A grades or inbox tick then completes normally or
    ends with the TypeError of a handler's log line; it completes normally
    when the services reject only with exceptions the log line renders. *)
Theorem X3_directory_failure_aborts_tick (env : Env) :
  (forall st : State string Announcement,
     match getActiveClasses env (length (asked st)) with
     | Thrown e => watchForAnnouncements env st = (record_call CallActiveClasses st, Thrown e)
     | Normal _ => outcome (watchForAnnouncements env) st = Normal tt
     end)
  /\ (forall st : State (string * string) Grade,
        match getActiveClasses env (length (asked st)) with
        | Thrown e => watchForGrades env st = (record_call CallActiveClasses st, Thrown e)
        | Normal _ =>
            (outcome (watchForGrades env) st = Normal tt
             \/ outcome (watchForGrades env) st = Thrown ErrOther)
            /\ (grades_failures_render env -> outcome (watchForGrades env) st = Normal tt)
        end)
  /\ (forall st : State (string * string) Post,
        match getAllActiveUsers env (length (asked st)) with
        | Thrown e =>
            watchForInboxMessages env st = (record_call CallAllActiveUsers st, Thrown e)
        | Normal _ =>
            (outcome (watchForInboxMessages env) st = Normal tt
             \/ outcome (watchForInboxMessages env) st = Thrown ErrOther)
            /\ (inbox_failures_render env ->
                outcome (watchForInboxMessages env) st = Normal tt)
        end).
Proof.
  split; [|split]; intros st.
  - unfold outcome, watchForAnnouncements. rewrite bind_await.
    destruct (getActiveClasses env _) as [courses|e]; [|reflexivity].
    now rewrite for_of_fold by apply announcementsTarget_completes.
  - unfold outcome, watchForGrades. rewrite bind_await.
    destruct (getActiveClasses env _) as [courses|e]; [|reflexivity]. split.
    + apply normal_or_thrown. intros e.
      apply (throws_only_for_of _ courses (gradesCourse env) (gradesCourse_throws env)).
    + intros Henv.
      now rewrite for_of_fold by (intros c; now apply gradesCourse_completes).
  - unfold outcome, watchForInboxMessages. rewrite bind_await.
    destruct (getAllActiveUsers env _) as [users|e]; [|reflexivity]. split.
    + apply normal_or_thrown. intros e.
      apply (throws_only_for_of _ users (inboxUser env) (inboxUser_throws env)).
    + intros Henv.
      now rewrite for_of_fold by (intros u; now apply inboxUser_completes).
Qed.

Lemma grades_env_failures_render : grades_failures_render grades_env.
Proof.
  split; [|split; [|split]]; simpl; intros; try discriminate.
  destruct (bool_decide _); [|discriminate].
  match goal with Hfb : Thrown _ = Thrown _ |- _ => now inversion Hfb end.
Qed.

Lemma inbox_env_failures_render : inbox_failures_render inbox_env.
Proof.
  split; [|split]; simpl; intros; try discriminate.
  destruct (bool_decide _); [|discriminate].
  match goal with Hposts : Thrown _ = Thrown _ |- _ => now inversion Hposts end.
Qed.

Lemma X3_directory_failure_aborts_tick_witness :
  outcome (watchForGrades grades_env) grades_state = Normal tt
  /\ outcome (watchForInboxMessages inbox_env) inbox_state = Normal tt.
Proof.
  split.
  - exact (proj2 (proj1 (proj2 (X3_directory_failure_aborts_tick grades_env)) grades_state)
             grades_env_failures_render).
  - exact (proj2 (proj2 (proj2 (X3_directory_failure_aborts_tick inbox_env)) inbox_state)
             inbox_env_failures_render).
Defined.

(** A grades tick over one course with the users ["u1"] and ["u2"]: the
    grade fetch of ["u1"] rejects with an error that refers to itself, the
    log line of the handler throws, and the tick ends there, with ["u2"] not
    asked for. *)
Definition circular_env : Env :=
  {| getActiveClasses := fun _ => Normal [("c1", example_course)];
     getActiveUsersInClass := fun _ _ => ["u1"; "u2"];
     getAllActiveUsers := fun _ => Normal ["u1"; "u2"];
     getUserCookie := fun _ uid => Normal (Some ("cookie-of-" +:+ uid));
     getClassAnnouncements := fun _ _ _ _ => Normal [];
     getAllGrades := fun _ _ cookie _ =>
       if bool_decide (cookie = "cookie-of-u1") then Thrown ErrCircular
       else Normal ([], "");
     getUserId := fun _ _ => Normal "h1";
     getGradeFeedback := fun _ _ _ _ _ => Thrown ErrOther;
     getUserInbox := fun _ cookie =>
       if bool_decide (cookie = "cookie-of-u1") then Thrown ErrCircular else Normal [];
     getPostsForInboxForum := fun _ _ _ => Normal [];
     clock := fun _ => example_now;
     Date_parse := example_parse |}.

Example unrendered_failure_ends_tick :
  outcome (watchForGrades circular_env) (initial_state []) = Thrown ErrOther
  /\ asked (exec (watchForGrades circular_env) (initial_state []))
     = [CallActiveClasses; CallActiveUsersInClass "c1"; CallUserCookie "u1";
        CallAllGrades "cst-101-o500" "cookie-of-u1"]
  /\ logged (exec (watchForGrades circular_env) (initial_state [])) = []
  /\ outcome (watchForInboxMessages circular_env) (initial_state []) = Thrown ErrOther
  /\ asked (exec (watchForInboxMessages circular_env) (initial_state []))
     = [CallAllActiveUsers; CallUserCookie "u1"; CallUserInbox "cookie-of-u1"]
  /\ logged (exec (watchForInboxMessages circular_env) (initial_state [])) = [].
Proof. vm_compute. repeat split. Qed.

(** X4: a course without active users is skipped: the lookup of its users is
    all that happens, in the announcements watcher and in the grades watcher
    alike. *)
Theorem X4_course_without_users_is_skipped (env : Env) (class_id : string)
    (course : Course) :
  (forall st : State string Announcement,
     getActiveUsersInClass env (length (asked st)) class_id = [] ->
     announcementsTarget env (class_id, course) st
     = (record_call (CallActiveUsersInClass class_id) st, Normal tt))
  /\ (forall st : State (string * string) Grade,
        getActiveUsersInClass env (length (asked st)) class_id = [] ->
        gradesCourse env (class_id, course) st
        = (record_call (CallActiveUsersInClass class_id) st, Normal tt)).
Proof.
  split; intros st Hnone.
  - unfold announcementsTarget, try_catch, announcementsBody.
    rewrite bind_ask, Hnone. reflexivity.
  - unfold gradesCourse. rewrite bind_ask, Hnone. reflexivity.
Qed.

Lemma X4_course_without_users_is_skipped_witness :
  announcementsTarget success_env ("c2", example_course) (initial_state [])
  = (record_call (CallActiveUsersInClass "c2") (initial_state []), Normal tt)
  /\ gradesCourse success_env ("c2", example_course) (initial_state [])
     = (record_call (CallActiveUsersInClass "c2") (initial_state []), Normal tt).
Proof.
  destruct (X4_course_without_users_is_skipped success_env "c2" example_course)
    as [Hann Hgrades].
  split; [apply Hann | apply Hgrades]; reflexivity.
Defined.

(** ** The safe fetch of the announcements watcher *)

Section SafeFetch.
Variable env : Env.
Variables (class_id : string) (metadata : AnnouncementMetadata).

Lemma getClassAnnouncementsSafe_app (pre post : list string)
    (st : State string Announcement) :
  getClassAnnouncementsSafe env class_id (pre ++ post) metadata st
  = match outcome (getClassAnnouncementsSafe env class_id pre metadata) st with
    | Normal None =>
        getClassAnnouncementsSafe env class_id post metadata
          (exec (getClassAnnouncementsSafe env class_id pre metadata) st)
    | _ => getClassAnnouncementsSafe env class_id pre metadata st
    end.
Proof.
  revert st. induction pre as [|u pre IH]; intros st; [reflexivity|].
  simpl. unfold outcome, exec, bind in *.
  destruct (tryUser env class_id metadata u st) as [st1 [[l|]|e]]; simpl; try reflexivity.
  apply IH.
Qed.

(** X5: the safe fetch uses the first user, in the order of the list, whose
    attempt yields a result; the users after that one are not tried. *)
Theorem X5_first_responding_user_wins (pre post : list string) (uid : string)
    (st : State string Announcement) (l : list Announcement) :
  let safe users := getClassAnnouncementsSafe env class_id users metadata in
  outcome (safe pre) st = Normal None ->
  outcome (tryUser env class_id metadata uid) (exec (safe pre) st) = Normal (Some l) ->
  safe (pre ++ uid :: post) st
  = (exec (tryUser env class_id metadata uid) (exec (safe pre) st), Normal (Some l)).
Proof.
  intros safe Hpre Huid. unfold safe. rewrite getClassAnnouncementsSafe_app.
  fold (safe pre). rewrite Hpre. simpl.
  rewrite (bind_normal _ _ _ (Some l)) by exact Huid. reflexivity.
Qed.

Lemma tryUser_reports (uid : string) (st : State string Announcement) :
  exists rs,
    reported (exec (tryUser env class_id metadata uid) st) = reported st ++ rs
    /\ sublist rs [uid].
Proof.
  unfold exec, tryUser, try_catch. rewrite bind_await.
  destruct (getUserCookie env _ uid) as [[ck|]|[]]; simpl;
    [rewrite bind_await;
     destruct (getClassAnnouncements env _ class_id ck metadata) as [l|[]]; simpl|..];
    first [ exists [uid]; split; reflexivity
          | exists []; rewrite app_nil_r; split; [reflexivity | apply sublist_nil_l] ].
Qed.

(** The lookups and fetches of the safe fetch reject only with errors that
    its log line renders (or with a 401, which is not rendered). *)
Definition announcements_failures_render : Prop :=
  (forall n uid e,
     getUserCookie env n uid = Thrown e -> template_throws e || stringify_throws e = false)
  /\ (forall n cookie e,
        getClassAnnouncements env n class_id cookie metadata = Thrown e ->
        template_throws e || stringify_throws e = false).

Lemma tryUser_resolves (uid : string) (st : State string Announcement) :
  announcements_failures_render ->
  exists r, outcome (tryUser env class_id metadata uid) st = Normal r.
Proof.
  intros [Hck Hfetch]. unfold outcome, tryUser, try_catch. rewrite bind_await.
  destruct (getUserCookie env _ uid) as [[ck|]|e] eqn:Hcookie; simpl; eauto.
  - rewrite bind_await.
    destruct (getClassAnnouncements env _ class_id ck metadata) as [l|e] eqn:Hans;
      simpl; eauto.
    apply Hfetch in Hans. destruct e; try discriminate Hans; simpl; eauto.
  - apply Hck in Hcookie. destruct e; try discriminate Hcookie; simpl; eauto.
Qed.

(** X6: the safe fetch touches neither the cache nor its files nor the
    events, and the uids it reports through [handle401] are users of the
    list it was given, each at most once and in the order of the list. It
    resolves, to an array or to [null], or it ends with the TypeError of its
    log line; it resolves when the lookups and fetches reject only with
    exceptions that the log line renders. *)
Theorem X6_safe_fetch_is_safe (users : list string) (st : State string Announcement) :
  let st' := exec (getClassAnnouncementsSafe env class_id users metadata) st in
  exists rs,
    ((exists r, outcome (getClassAnnouncementsSafe env class_id users metadata) st = Normal r)
     \/ outcome (getClassAnnouncementsSafe env class_id users metadata) st = Thrown ErrOther)
    /\ (announcements_failures_render ->
        exists r, outcome (getClassAnnouncementsSafe env class_id users metadata) st
                  = Normal r)
    /\ untouched st st'
    /\ reported st' = reported st ++ rs
    /\ sublist rs users.
Proof.
  cbv zeta. revert st. induction users as [|uid users IH]; intros st.
  - exists []. simpl. rewrite app_nil_r.
    split; [left; now exists None|]. split; [intros _; now exists None|].
    split; [apply untouched_refl|]. split; [reflexivity | constructor].
  - destruct (tryUser_reports uid st) as (rs & Hrep & Hsub).
    pose proof (getClassAnnouncementsSafe_untouched env class_id (uid :: users) metadata st)
      as Hun.
    pose proof (tryUser_throws env class_id metadata uid st) as Hthrows.
    pose proof (tryUser_resolves uid st) as Hres.
    simpl in *. unfold outcome, exec, bind in *.
    destruct (tryUser env class_id metadata uid st) as [st1 [[l|]|e]]; simpl in *.
    + exists rs. split; [left; now exists (Some l)|].
      split; [intros _; now exists (Some l)|].
      split; [exact Hun|]. split; [exact Hrep|].
      change (uid :: users) with ([uid] ++ users).
      rewrite <- (app_nil_r rs). apply sublist_app; [exact Hsub | apply sublist_nil_l].
    + destruct (IH st1) as (rs2 & Hout2 & Hres2 & _ & Hrep2 & Hsub2).
      exists (rs ++ rs2). split; [exact Hout2|]. split; [exact Hres2|].
      split; [exact Hun|]. split.
      * rewrite Hrep2, Hrep. now rewrite app_assoc.
      * change (uid :: users) with ([uid] ++ users). now apply sublist_app.
    + exists rs. rewrite (Hthrows e eq_refl). split; [now right|].
      split; [intros Henv; destruct (Hres Henv) as [r Hr]; discriminate Hr|].
      split; [exact Hun|]. split; [exact Hrep|].
      change (uid :: users) with ([uid] ++ users).
      rewrite <- (app_nil_r rs). apply sublist_app; [exact Hsub | apply sublist_nil_l].
Qed.
End SafeFetch.

(** The cookie of ["u1"] is refused, every other cookie is served. *)
Definition one_expired_env : Env :=
  example_env (fun cookie => if bool_decide (cookie = "cookie-of-u1") then Thrown Err401
                             else Normal [ann_1h])
    (Normal ([], "")) (fun _ => Thrown ErrOther) (Normal []) (fun _ => Normal []).

Lemma X6_safe_fetch_is_safe_witness :
  exists r,
    outcome (getClassAnnouncementsSafe one_expired_env "c1" ["u1"; "u2"; "u3"]
               (course_metadata example_course)) (initial_state [])
    = Normal r.
Proof.
  destruct (X6_safe_fetch_is_safe one_expired_env "c1" (course_metadata example_course)
              ["u1"; "u2"; "u3"] (initial_state [])) as (rs & _ & Hresolves & _).
  apply Hresolves. split; simpl; intros; try discriminate.
  destruct (bool_decide _); [|discriminate].
  match goal with Hans : Thrown _ = Thrown _ |- _ => now inversion Hans end.
Defined.

Lemma X5_first_responding_user_wins_witness :
  let md := course_metadata example_course in
  let st : State string Announcement := initial_state [] in
  let st' := exec (getClassAnnouncementsSafe one_expired_env "c1" ["u1"; "u2"; "u3"] md) st in
  outcome (getClassAnnouncementsSafe one_expired_env "c1" ["u1"; "u2"; "u3"] md) st
  = Normal (Some [ann_1h])
  /\ reported st' = ["u1"]
  /\ asked st' = [CallUserCookie "u1"; CallClassAnnouncements "c1" "cookie-of-u1";
                  CallUserCookie "u2"; CallClassAnnouncements "c1" "cookie-of-u2"].
Proof.
  intros md st.
  pose proof (X5_first_responding_user_wins one_expired_env "c1" md ["u1"] ["u3"] "u2"
                st [ann_1h] eq_refl eq_refl) as Hrun.
  cbv zeta in Hrun. simpl app in Hrun. unfold outcome, exec. rewrite Hrun.
  repeat split.
Defined.

(** ** A fetch that changes the size of the snapshot *)

(** The items that pass the recency filter when each one is evaluated at its
    own reading of the clock, the first at the reading number [n]. *)
Fixpoint recent_items (env : Env) (n : nat) (items : list Announcement)
    : list Announcement :=
  match items with
  | [] => []
  | a :: rest =>
      (if isRecentAnnouncement_at (Date_parse env) (clock env n) a then [a] else [])
      ++ recent_items env (S n) rest
  end.

Lemma emitAnnouncements_run (env : Env) (items : list Announcement)
    (st : State string Announcement) :
  for_of items (emitAnnouncement env) st
  = (mkState (store st) (disk st)
             (emitted st ++ (EvAnnouncement <$> recent_items env (length (asked st)) items))
             (reported st) (logged st)
             (asked st ++ replicate (length items) CallClock),
     Normal tt).
Proof.
  revert st. induction items as [|a items IH]; intros st.
  - simpl. rewrite !app_nil_r. now destruct st.
  - simpl for_of. unfold bind. rewrite emitAnnouncement_run.
    destruct (isRecentAnnouncement_at _ _ a) eqn:Hrecent; rewrite IH; simpl;
      rewrite Hrecent, length_app, Nat.add_1_r, <- !app_assoc; reflexivity.
Qed.

(** X7: announcements, with an array cached and a fetch that resolved to an
    array of another length: the snapshot is replaced, the new array is
    written once to the course's file, and the events added are exactly the
    diffed announcements that pass the recency filter, in the order of the
    diff, each evaluated at its own reading of the clock. *)
Theorem X7_announcements_size_change (env : Env) (class_id : string) (course : Course)
    (st : State string Announcement) (old_l l : list Announcement) :
  getActiveUsersInClass env (length (asked st)) class_id <> [] ->
  get_or_null class_id st = Some old_l ->
  snd (course_fetch env class_id course st) = Normal (Some l) ->
  length l <> length old_l ->
  let st' := exec (announcementsTarget env (class_id, course)) st in
  let first_reading := length (asked (fst (course_fetch env class_id course st))) in
  outcome (announcementsTarget env (class_id, course)) st = Normal tt
  /\ store st' = <[class_id := Some l]> (store st)
  /\ disk st' = disk st ++ [(class_id, Some l)]
  /\ emitted st'
     = emitted st ++ (EvAnnouncement <$>
         recent_items env first_reading (locateDifferenceInArrays ann_id l old_l)).
Proof.
  intros Husers Hold Hfetch Hlen. cbv zeta.
  unfold outcome, exec, announcementsTarget, try_catch.
  rewrite (announcementsBody_run env class_id course st (Some l) Husers Hfetch).
  rewrite Hold. cbv zeta. unfold_effects. rewrite bind_modify.
  apply Nat.eqb_neq in Hlen. rewrite Hlen. rewrite !bind_modify.
  rewrite emitAnnouncements_run. simpl.
  destruct (course_fetch_untouched env class_id course st) as (-> & -> & ->).
  now repeat split.
Qed.

Lemma X7_announcements_size_change_witness :
  let env := example_env (fun _ => Normal [ann_old; ann_49h; ann_1h]) (Normal ([], ""))
                         (fun _ => Thrown ErrOther) (Normal []) (fun _ => Normal []) in
  let st : State string Announcement := initial_state [("c1", Some [ann_old])] in
  let st' := exec (announcementsTarget env ("c1", example_course)) st in
  disk st' = [("c1", Some [ann_old; ann_49h; ann_1h])]
  /\ emitted st' = [EvAnnouncement ann_1h].
Proof.
  intros env st.
  destruct (X7_announcements_size_change env "c1" example_course st [ann_old]
              [ann_old; ann_49h; ann_1h])
    as (_ & _ & Hdisk & Hemitted);
    [discriminate | reflexivity | reflexivity | discriminate |].
  split; [exact Hdisk | exact Hemitted].
Defined.

(** X8: inbox, with an array cached, the gate open and a fetch that resolved
    to an array of another length: the forum's turn sets the snapshot, logs
    one debug line, writes the new array once to the forum's file and emits
    exactly the unread posts of the diff, in order, each tagged with the
    user; it asks nothing but the fetch. *)
Theorem X8_inbox_size_change (env : Env) (uid : string) (cookie : Cookie) (forum : Forum)
    (st : State (string * string) Post) (old_l posts : list Post) :
  get_default (uid, forumId forum) None st = Some old_l ->
  inbox_fetch_skipped (Some old_l) (unreadCount forum) = false ->
  getPostsForInboxForum env (length (asked st)) cookie (forumId forum) = Normal posts ->
  length posts <> length old_l ->
  inboxForum env uid cookie forum st
  = (mkState (<[(uid, forumId forum) := Some posts]> (store st))
             (disk st ++ [(inbox_path uid forum, Some posts)])
             (emitted st ++ (inbox_event uid <$>
                List.filter is_unread (locateDifferenceInArrays post_id posts old_l)))
             (reported st)
             (logged st ++ [LogDebug uid])
             (asked st ++ [CallPostsForInboxForum cookie (forumId forum)]),
     Normal tt).
Proof.
  intros Hold Hgate Hfetch Hlen. rewrite inboxForum_run, Hold. cbv zeta.
  rewrite Hgate, Hfetch. apply Nat.eqb_neq in Hlen. rewrite Hlen.
  rewrite emitPosts_run. reflexivity.
Qed.

Definition post_d : Post := {| post_id := "3"; isRead := true; post_content := "fourth" |}.

Lemma X8_inbox_size_change_witness :
  let env := example_env (fun _ => Normal []) (Normal ([], "")) (fun _ => Thrown ErrOther)
                         (Normal [forum_1]) (fun _ => Normal [post_a; post_c; post_d]) in
  let st : State (string * string) Post := initial_state [(("u1", "f1"), Some [post_b])] in
  emitted (exec (inboxForum env "u1" "cookie-of-u1" forum_1) st)
  = [EvInboxMessage post_c "u1"].
Proof.
  intros env st. unfold exec.
  rewrite (X8_inbox_size_change env "u1" "cookie-of-u1" forum_1 st [post_b]
             [post_a; post_c; post_d]); [reflexivity | reflexivity | | reflexivity | discriminate].
  reflexivity.
Defined.

(** ** Removals *)

(** X9: when the new snapshot has another length than the cached one and
    brings no new id (items were removed), the new snapshot is set and
    written and no event is emitted, in the three watchers. *)
Theorem X9_removals_are_silent (env : Env) :
  (forall class_id course (st : State string Announcement) old_l l,
     getActiveUsersInClass env (length (asked st)) class_id <> [] ->
     get_or_null class_id st = Some old_l ->
     snd (course_fetch env class_id course st) = Normal (Some l) ->
     length l <> length old_l ->
     (forall a, a ∈ l -> ann_id a ∈ id_set ann_id old_l) ->
     let st' := exec (announcementsTarget env (class_id, course)) st in
     emitted st' = emitted st
     /\ disk st' = disk st ++ [(class_id, Some l)]
     /\ store st' = <[class_id := Some l]> (store st))
  /\ (forall course_id course uid (st : State (string * string) Grade)
             cookie grades finalGrade old_l,
        get_default (course_id, uid) None st = Some old_l ->
        getUserCookie env (length (asked st)) uid = Normal (Some cookie) ->
        getAllGrades env (S (length (asked st))) (slugId course) cookie (courseCode course)
        = Normal (grades, finalGrade) ->
        let new_grades := List.filter is_published grades in
        length new_grades <> length old_l ->
        (forall g, g ∈ new_grades -> grade_id g ∈ id_set grade_id old_l) ->
        let st' := exec (gradesTarget env course_id course uid) st in
        emitted st' = emitted st
        /\ disk st' = disk st ++ [(grades_path course_id uid, Some new_grades)]
        /\ store st' = <[(course_id, uid) := Some new_grades]> (store st))
  /\ (forall uid cookie forum (st : State (string * string) Post) old_l posts,
        get_default (uid, forumId forum) None st = Some old_l ->
        inbox_fetch_skipped (Some old_l) (unreadCount forum) = false ->
        getPostsForInboxForum env (length (asked st)) cookie (forumId forum)
        = Normal posts ->
        length posts <> length old_l ->
        (forall p, p ∈ posts -> post_id p ∈ id_set post_id old_l) ->
        let st' := exec (inboxForum env uid cookie forum) st in
        emitted st' = emitted st
        /\ disk st' = disk st ++ [(inbox_path uid forum, Some posts)]
        /\ store st' = <[(uid, forumId forum) := Some posts]> (store st)).
Proof.
  split; [|split].
  - intros class_id course st old_l l Husers Hold Hfetch Hlen Hknown. cbv zeta.
    unfold exec, announcementsTarget, try_catch.
    rewrite (announcementsBody_run env class_id course st (Some l) Husers Hfetch).
    rewrite Hold. cbv zeta. unfold_effects. rewrite bind_modify.
    apply Nat.eqb_neq in Hlen. rewrite Hlen. rewrite !bind_modify.
    rewrite (locateDifferenceInArrays_all_known ann_id l old_l Hknown). simpl.
    destruct (course_fetch_untouched env class_id course st) as (-> & -> & ->).
    now repeat split.
  - intros course_id course uid st cookie grades finalGrade old_l Hold Hck Hfetch
           new_grades Hlen Hknown. cbv zeta.
    unfold exec, gradesTarget, try_catch.
    rewrite (gradesBody_run env course_id course uid st cookie grades finalGrade Hck Hfetch).
    rewrite Hold. cbv zeta. fold new_grades.
    apply Nat.eqb_neq in Hlen. rewrite Hlen.
    rewrite (locateDifferenceInArrays_all_known grade_id new_grades old_l Hknown).
    now repeat split.
  - intros uid cookie forum st old_l posts Hold Hgate Hfetch Hlen Hknown. cbv zeta.
    unfold exec. rewrite inboxForum_run, Hold. cbv zeta.
    rewrite Hgate, Hfetch. apply Nat.eqb_neq in Hlen. rewrite Hlen.
    rewrite (locateDifferenceInArrays_all_known post_id posts old_l Hknown).
    now repeat split.
Qed.

Lemma X9_removals_are_silent_witness :
  (let env := example_env (fun _ => Normal [ann_1h]) (Normal ([], ""))
                          (fun _ => Thrown ErrOther) (Normal []) (fun _ => Normal []) in
   let st : State string Announcement := initial_state [("c1", Some [ann_1h; ann_old])] in
   let st' := exec (announcementsTarget env ("c1", example_course)) st in
   emitted st' = [] /\ disk st' = [("c1", Some [ann_1h])]
   /\ store st' = <["c1" := Some [ann_1h]]> (store st))
  /\ (let st : State (string * string) Grade :=
        initial_state [(("c1", "u1"), Some [grade_2; grade_1; grade_seen])] in
      let st' := exec (gradesTarget success_env "c1" example_course "u1") st in
      emitted st' = [] /\ disk st' = [("c1/u1.json", Some [grade_1; grade_seen])]
      /\ store st' = <[("c1", "u1") := Some [grade_1; grade_seen]]> (store st))
  /\ (let st : State (string * string) Post :=
        initial_state [(("u1", "f1"), Some [post_d; post_c; post_a])] in
      let st' := exec (inboxForum success_env "u1" "cookie-of-u1" forum_1) st in
      emitted st' = [] /\ disk st' = [("u1/f1.json", Some [post_c])]
      /\ store st' = <[("u1", "f1") := Some [post_c]]> (store st)).
Proof.
  split; [|split].
  - intros env st.
    apply (proj1 (X9_removals_are_silent env) "c1" example_course st
             [ann_1h; ann_old] [ann_1h]);
      [discriminate | reflexivity | reflexivity | discriminate |].
    intros a Ha. apply list_elem_of_singleton in Ha as ->.
    apply elem_of_id_set. exists ann_1h. split; [left | reflexivity].
  - intros st.
    apply (proj1 (proj2 (X9_removals_are_silent success_env)) "c1" example_course "u1" st
             "cookie-of-u1" [grade_draft; grade_1; grade_seen] "A"
             [grade_2; grade_1; grade_seen]);
      [reflexivity | reflexivity | reflexivity | discriminate |].
    intros g Hg. apply elem_of_id_set. exists g. split; [|reflexivity].
    right. exact Hg.
  - intros st.
    apply (proj2 (proj2 (X9_removals_are_silent success_env)) "u1" "cookie-of-u1" forum_1 st
             [post_d; post_c; post_a] [post_c]);
      [reflexivity | reflexivity | reflexivity | discriminate |].
    intros p Hp. apply list_elem_of_singleton in Hp as ->.
    apply elem_of_id_set. exists post_c. split; [right; left | reflexivity].
Defined.

(** ** What a target's turn may touch *)

Section Frame.
Context {K I : Type} `{Countable K}.

(** Only the snapshot under [k] and the file [path] may have changed. *)
Definition touches_only (k : K) (path : string) (st st' : State K I) : Prop :=
  (forall k', k' <> k -> store st' !! k' = store st !! k')
  /\ exists ws, disk st' = disk st ++ ws /\ Forall (fun w => w.1 = path) ws.

Lemma touches_only_refl k path st : touches_only k path st st.
Proof. split; [reflexivity|]. exists []. split; [now rewrite app_nil_r | constructor]. Qed.

Lemma touches_only_trans k path st1 st2 st3 :
  touches_only k path st1 st2 -> touches_only k path st2 st3 ->
  touches_only k path st1 st3.
Proof.
  intros [Hs1 (w1 & Hd1 & Hf1)] [Hs2 (w2 & Hd2 & Hf2)]. split.
  - intros k' Hk'. now rewrite Hs2, Hs1.
  - exists (w1 ++ w2). split; [now rewrite Hd2, Hd1, app_assoc | now apply Forall_app].
Qed.

Lemma touches_only_same k path (st st' : State K I) :
  store st' = store st -> disk st' = disk st -> touches_only k path st st'.
Proof.
  intros Hs Hd. split; [now rewrite Hs|].
  exists []. split; [now rewrite Hd, app_nil_r | constructor].
Qed.

Lemma touches_only_set k path v (st : State K I) :
  touches_only k path st (exec (set k v) st).
Proof.
  split; [|exists []; split; [simpl; now rewrite app_nil_r | constructor]].
  intros k' Hk'. simpl. now rewrite lookup_insert_ne.
Qed.

Lemma touches_only_write k path data (st : State K I) :
  touches_only k path st (exec (writeCacheFile path data) st).
Proof.
  split; [reflexivity|]. exists [(path, data)]. split; [reflexivity|].
  constructor; [reflexivity | constructor].
Qed.
End Frame.

(** Follows the structure of a computation like [keeps_structure], closing
    the elementary steps that leave cache and files alone and the writes to
    the target's own key and file. *)
Ltac touches_structure known :=
  repeat first
    [ known
    | match goal with
      | |- keeps _ (match ?x with _ => _ end) => destruct x
      end
    | apply (keeps_ret _ (touches_only_refl _ _))
    | apply (keeps_throw _ (touches_only_refl _ _))
    | apply (keeps_gets _ (touches_only_refl _ _))
    | apply (keeps_bind _ (touches_only_trans _ _)); [|intros ?]
    | apply (keeps_try_catch _ (touches_only_trans _ _)); [|intros []]
    | apply (keeps_for_of _ (touches_only_refl _ _) (touches_only_trans _ _)); intros ?
    | (apply keeps_ask || apply keeps_await); intros ?; now apply touches_only_same
    | intros ?; apply touches_only_set
    | intros ?; apply touches_only_write
    | apply keeps_modify; intros ?; now apply touches_only_same ].

(** X10: the turn of a target changes no snapshot but the one under the
    target's key, and writes no file but the target's: the course's key and
    file for announcements, the (course, user) key and file for grades, the
    (user, forum) key and file for a forum of the inbox. *)
Theorem X10_target_touches_own_key_only (env : Env) :
  (forall class_id course,
     keeps (touches_only class_id class_id) (announcementsTarget env (class_id, course)))
  /\ (forall course_id course uid,
        keeps (touches_only (course_id, uid) (grades_path course_id uid))
              (gradesTarget env course_id course uid))
  /\ (forall uid cookie forum,
        keeps (touches_only (uid, forumId forum) (inbox_path uid forum))
              (inboxForum env uid cookie forum)).
Proof.
  split; [|split].
  - intros class_id course. unfold announcementsTarget, announcementsBody, emitAnnouncement,
      isRecentAnnouncement.
    assert (Hsafe : forall users md,
      keeps (touches_only class_id class_id)
            (getClassAnnouncementsSafe env class_id users md)).
    { intros users md st.
      destruct (getClassAnnouncementsSafe_untouched env class_id users md st) as (? & ? & _).
      now apply touches_only_same. }
    touches_structure ltac:(idtac; apply Hsafe).
  - intros course_id course uid. unfold gradesTarget, gradesBody, emitGrade.
    touches_structure ltac:(idtac; fail).
  - intros uid cookie forum.
    unfold inboxForum, skipForum, getUnreadMessagesCount, emitPost.
    touches_structure ltac:(idtac; fail).
Qed.

(** ** Users without a credential *)

(** X11: when the cookie of a user resolves to [null], the user's turn ends
    after that lookup: no remote fetch, no report, no log line, no change of
    cache, files or events; in the safe fetch of the announcements the next
    user is tried. *)
Theorem X11_no_cookie_no_fetch (env : Env) (uid : string) :
  (forall class_id metadata (st : State string Announcement),
     getUserCookie env (length (asked st)) uid = Normal None ->
     tryUser env class_id metadata uid st
     = (record_call (CallUserCookie uid) st, Normal None))
  /\ (forall course_id course (st : State (string * string) Grade),
        getUserCookie env (length (asked st)) uid = Normal None ->
        gradesTarget env course_id course uid st
        = (record_call (CallUserCookie uid) st, Normal tt))
  /\ (forall st : State (string * string) Post,
        getUserCookie env (length (asked st)) uid = Normal None ->
        inboxUser env uid st = (record_call (CallUserCookie uid) st, Normal tt)).
Proof.
  split; [|split].
  - intros class_id metadata st Hck. unfold tryUser, try_catch.
    now rewrite bind_await, Hck.
  - intros course_id course st Hck. unfold gradesTarget, try_catch, gradesBody.
    now rewrite bind_await, Hck.
  - intros st Hck. unfold inboxUser, try_catch, inboxBody.
    now rewrite bind_await, Hck.
Qed.

(** Nobody has a cookie. *)
Definition no_cookie_env : Env :=
  {| getActiveClasses := fun _ => Normal [("c1", example_course)];
     getActiveUsersInClass := fun _ _ => ["u1"];
     getAllActiveUsers := fun _ => Normal ["u1"];
     getUserCookie := fun _ _ => Normal None;
     getClassAnnouncements := fun _ _ _ _ => Normal [ann_1h];
     getAllGrades := fun _ _ _ _ => Normal ([grade_1], "A");
     getUserId := fun _ _ => Normal "halo-1";
     getGradeFeedback := fun _ _ assessment _ _ => Normal (example_feedback assessment);
     getUserInbox := fun _ _ => Normal [forum_1];
     getPostsForInboxForum := fun _ _ _ => Normal [post_c];
     clock := fun _ => example_now;
     Date_parse := example_parse |}.

Lemma X11_no_cookie_no_fetch_witness :
  exec (watchForGrades no_cookie_env) (initial_state [(("c1", "u1"), Some [])])
  = mkState (list_to_map [(("c1", "u1"), Some [])]) [] [] [] []
            [CallActiveClasses; CallActiveUsersInClass "c1"; CallUserCookie "u1"]
  /\ gradesTarget no_cookie_env "c1" example_course "u1" (initial_state [])
     = (record_call (CallUserCookie "u1") (initial_state []), Normal tt).
Proof.
  split; [reflexivity|].
  apply (proj1 (proj2 (X11_no_cookie_no_fetch no_cookie_env "u1"))). reflexivity.
Defined.

(** ** The tick after a successful fetch *)

Lemma announcements_fetched_store (env : Env) (class_id : string) (course : Course)
    (st : State string Announcement) (l : list Announcement) :
  getActiveUsersInClass env (length (asked st)) class_id <> [] ->
  snd (course_fetch env class_id course st) = Normal (Some l) ->
  store (exec (announcementsTarget env (class_id, course)) st)
  = <[class_id := Some l]> (store st).
Proof.
  intros Husers Hfetch. unfold exec, announcementsTarget, try_catch.
  rewrite (announcementsBody_run env class_id course st (Some l) Husers Hfetch).
  cbv zeta. unfold_effects. rewrite bind_modify.
  destruct (course_fetch_untouched env class_id course st) as (Hs & _ & _).
  destruct (get_or_null class_id st) as [old_l|]; [|simpl; now rewrite Hs].
  destruct (Nat.eqb _ _); [simpl; now rewrite Hs|].
  rewrite !bind_modify, emitAnnouncements_run. simpl. now rewrite Hs.
Qed.

Lemma inbox_fetched_store (env : Env) (uid : string) (cookie : Cookie) (forum : Forum)
    (st : State (string * string) Post) (posts : list Post) :
  inbox_fetch_skipped (get_default (uid, forumId forum) None st) (unreadCount forum)
  = false ->
  getPostsForInboxForum env (length (asked st)) cookie (forumId forum) = Normal posts ->
  store (exec (inboxForum env uid cookie forum) st)
  = <[(uid, forumId forum) := Some posts]> (store st).
Proof.
  intros Hgate Hfetch. unfold exec. rewrite inboxForum_run. cbv zeta.
  rewrite Hgate, Hfetch.
  destruct (get_default (uid, forumId forum) None st) as [old_l|]; [|reflexivity].
  destruct (Nat.eqb _ _); [reflexivity|]. now rewrite emitPosts_run.
Qed.

Lemma get_or_null_insert {I : Type} (k : string) (l : list I) (st : State string I) :
  store st !! k = Some (Some l) -> get_or_null k st = Some l.
Proof. unfold get_or_null. now intros ->. Qed.

Lemma get_default_insert {K I : Type} `{Countable K} (k : K) (l : list I) (st : State K I) :
  store st !! k = Some (Some l) -> get_default k None st = Some l.
Proof. unfold get_default. now intros ->. Qed.

(** X12: a target is not notified twice. After a turn whose fetch resolved,
    the next turn of the same target, when its fetch resolves to the same
    collection (or, for the inbox, is skipped by the gate), emits nothing,
    writes nothing and leaves the cache as it is, however the first turn's
    emission ended. *)
Theorem X12_same_fetch_again_is_silent (env : Env) :
  (forall class_id course (st : State string Announcement) l,
     getActiveUsersInClass env (length (asked st)) class_id <> [] ->
     snd (course_fetch env class_id course st) = Normal (Some l) ->
     let st1 := exec (announcementsTarget env (class_id, course)) st in
     getActiveUsersInClass env (length (asked st1)) class_id <> [] ->
     snd (course_fetch env class_id course st1) = Normal (Some l) ->
     let st2 := exec (announcementsTarget env (class_id, course)) st1 in
     emitted st2 = emitted st1 /\ disk st2 = disk st1 /\ store st2 = store st1)
  /\ (forall course_id course uid (st : State (string * string) Grade)
             cookie cookie' grades finalGrade finalGrade',
        getUserCookie env (length (asked st)) uid = Normal (Some cookie) ->
        getAllGrades env (S (length (asked st))) (slugId course) cookie (courseCode course)
        = Normal (grades, finalGrade) ->
        let st1 := exec (gradesTarget env course_id course uid) st in
        getUserCookie env (length (asked st1)) uid = Normal (Some cookie') ->
        getAllGrades env (S (length (asked st1))) (slugId course) cookie'
          (courseCode course) = Normal (grades, finalGrade') ->
        let st2 := exec (gradesTarget env course_id course uid) st1 in
        emitted st2 = emitted st1 /\ disk st2 = disk st1 /\ store st2 = store st1)
  /\ (forall uid cookie cookie' forum unread' (st : State (string * string) Post) posts,
        inbox_fetch_skipped (get_default (uid, forumId forum) None st) (unreadCount forum)
        = false ->
        getPostsForInboxForum env (length (asked st)) cookie (forumId forum)
        = Normal posts ->
        let st1 := exec (inboxForum env uid cookie forum) st in
        getPostsForInboxForum env (length (asked st1)) cookie' (forumId forum)
        = Normal posts ->
        let forum' := {| forumId := forumId forum; unreadCount := unread' |} in
        let st2 := exec (inboxForum env uid cookie' forum') st1 in
        emitted st2 = emitted st1 /\ disk st2 = disk st1 /\ store st2 = store st1).
Proof.
  split; [|split].
  - intros class_id course st l Husers Hfetch st1 Husers1 Hfetch1 st2.
    pose proof (announcements_fetched_store env class_id course st l Husers Hfetch) as Hst1.
    fold st1 in Hst1.
    assert (Hcached : store st1 !! class_id = Some (Some l))
      by (rewrite Hst1; apply lookup_insert_eq).
    destruct (announcements_same_length env class_id course st1 Husers1 l l
                (get_or_null_insert _ _ _ Hcached) Hfetch1 eq_refl) as (He & Hd & Hs).
    fold st2 in He, Hd, Hs. repeat split; [exact He | exact Hd |].
    rewrite Hs. now apply insert_id.
  - intros course_id course uid st cookie cookie' grades finalGrade finalGrade'
           Hck Hfetch st1 Hck1 Hfetch1 st2.
    destruct (grades_fetched_run env course_id course uid st cookie grades finalGrade
                Hck Hfetch) as (Hst1 & _).
    fold st1 in Hst1.
    assert (Hcached : store st1 !! (course_id, uid)
                      = Some (Some (List.filter is_published grades)))
      by (rewrite Hst1; apply lookup_insert_eq).
    destruct (grades_same_length env course_id course uid st1 cookie' grades finalGrade'
                Hck1 Hfetch1 _ (get_default_insert _ _ _ Hcached) eq_refl)
      as (He & Hd & Hs).
    fold st2 in He, Hd, Hs. repeat split; [exact He | exact Hd |].
    rewrite Hs. now apply insert_id.
  - intros uid cookie cookie' forum unread' st posts Hgate Hfetch st1 Hfetch1 forum' st2.
    pose proof (inbox_fetched_store env uid cookie forum st posts Hgate Hfetch) as Hst1.
    fold st1 in Hst1.
    assert (Hcached : store st1 !! (uid, forumId forum) = Some (Some posts))
      by (rewrite Hst1; apply lookup_insert_eq).
    pose proof (get_default_insert _ _ _ Hcached) as Hold.
    subst st2. unfold exec at 1 2 3. rewrite inboxForum_run. cbv zeta.
    change (forumId forum') with (forumId forum). rewrite Hold.
    destruct (inbox_fetch_skipped (Some posts) (unreadCount forum')); [now repeat split|].
    rewrite Hfetch1, Nat.eqb_refl. simpl. repeat split. now apply insert_id.
Qed.

(** The two grades whose events were lost to the failed enrichment of the
    first one are not emitted by the next tick either. *)
Lemma X12_same_fetch_again_is_silent_witness :
  let st1 := exec (gradesTarget grades_env "c1" example_course "u1") grades_state in
  let st2 := exec (gradesTarget grades_env "c1" example_course "u1") st1 in
  get_default ("c1", "u1") None st1 = Some [grade_1; grade_2]
  /\ emitted st1 = []
  /\ (emitted st2 = emitted st1 /\ disk st2 = disk st1 /\ store st2 = store st1).
Proof.
  intros st1 st2. split; [reflexivity|]. split; [reflexivity|].
  apply (proj1 (proj2 (X12_same_fetch_again_is_silent grades_env)) "c1" example_course "u1"
           grades_state "cookie-of-u1" "cookie-of-u1" [grade_1; grade_2] "A" "A");
    reflexivity.
Defined.

(** ** A failing forum in the inbox watcher *)

(** X13: when the turn of one forum of a user throws (its post fetch
    rejects), the user's turn ends there: the forums before it have been
    processed, the forums after it are not, and the exception reaches the
    user's handler. On a 401 the handler reports the user, on another
    exception that [JSON.stringify] renders it logs an error, and the user's
    turn completes normally; on an exception that [JSON.stringify] does not
    render nothing is logged and the TypeError of the log line leaves the
    user's turn. *)
Theorem X13_failing_forum_ends_user_turn (env : Env) (uid : string) (cookie : Cookie)
    (pre post : list Forum) (forum : Forum) (st : State (string * string) Post) (e : Exn) :
  let st1 := record_call (CallUserInbox cookie) (record_call (CallUserCookie uid) st) in
  let st2 := exec (for_of pre (inboxForum env uid cookie)) st1 in
  let st3 := exec (inboxForum env uid cookie forum) st2 in
  getUserCookie env (length (asked st)) uid = Normal (Some cookie) ->
  getUserInbox env (S (length (asked st))) cookie = Normal (pre ++ forum :: post) ->
  outcome (for_of pre (inboxForum env uid cookie)) st1 = Normal tt ->
  outcome (inboxForum env uid cookie forum) st2 = Thrown e ->
  inboxUser env uid st
  = match e with
    | Err401 => (exec (handle401 uid) st3, Normal tt)
    | ErrOther | ErrNoString => (exec (log (LogError uid)) st3, Normal tt)
    | ErrCircular => (st3, Thrown ErrOther)
    end.
Proof.
  intros st1 st2 st3 Hck Hinbox Hpre Hforum.
  unfold inboxUser, try_catch, inboxBody.
  rewrite bind_await, Hck, bind_await. simpl length.
  rewrite length_app, Nat.add_1_r, Hinbox.
  fold st1. rewrite (for_of_stops pre post forum _ st1 e Hpre Hforum).
  fold st2 st3. now destruct e.
Qed.

Lemma X13_failing_forum_ends_user_turn_witness :
  let st' := exec (inboxUser inbox_env "u1") inbox_state in
  logged st' = [LogError "u1"]
  /\ asked st' = [CallUserCookie "u1"; CallUserInbox "cookie-of-u1";
                  CallPostsForInboxForum "cookie-of-u1" "f1"].
Proof.
  intros st'. subst st'. unfold exec.
  rewrite (X13_failing_forum_ends_user_turn inbox_env "u1" "cookie-of-u1" [] [forum_2]
             forum_1 inbox_state ErrOther); [|reflexivity ..].
  split; reflexivity.
Defined.

(** * HaloService: from a response to a result *)

(** [s.startsWith(needle)] *)
Fixpoint starts_with (needle s : string) : bool :=
  match needle, s with
  | EmptyString, _ => true
  | String a needle', String b s' => bool_decide (a = b) && starts_with needle' s'
  | String _ _, EmptyString => false
  end.

(** [s.includes(needle)]: [needle] occurs somewhere in [s]. *)
Fixpoint includes (needle s : string) : bool :=
  starts_with needle s
  || match s with
     | EmptyString => false
     | String _ s' => includes needle s'
     end.

(** An element of [res.body.errors]. *)
Record GraphQLError := { err_message : option string }.

(** [res.body]: its [errors] and the part of [data] the fetcher reads
    ([None] when a link of the path to it is [null] or [undefined]). *)
Record Body (D : Type) := { body_errors : option (list GraphQLError); body_data : option D }.
Arguments body_errors {D} _.
Arguments body_data {D} _.

(** The response of the POST request as the fetchers read it: [res.error]
    (false, or the error of the HTTP exchange) and [res.body]. *)
Record Response (D : Type) := { res_error : bool; res_body : option (Body D) }.
Arguments res_error {D} _.
Arguments res_body {D} _.

(** [res.body?.errors?.[0]?.message?.includes('401')] *)
Definition mentions_401 {D} (res : Response D) : bool :=
  match res_body res with
  | Some body =>
      match body_errors body with
      | Some (first :: _) =>
          match err_message first with
          | Some message => includes "401" message
          | None => false
          end
      | Some [] | None => false
      end
  | None => false
  end.

(** The lines every fetcher has after its request:
    [if (res.body?.errors?.[0]?.message?.includes('401')) throw { code: 401, cookie };]
    [if (!!res.error) throw res.error;]
    and then the read of [res.body.data...], a TypeError when a link is missing. *)
Definition read_response {D} (res : Response D) : Completion D :=
  if mentions_401 res then Thrown Err401
  else if res_error res then Thrown ErrOther
  else match res_body res with
       | Some body =>
           match body_data body with
           | Some d => Normal d
           | None => Thrown ErrOther
           end
       | None => Thrown ErrOther
       end.

(** [await request.post(...)...] followed by [read_response]: a rejected
    request throws what it was rejected with. *)
Definition fetched {D} (request : Completion (Response D)) : Completion D :=
  match request with
  | Normal res => read_response res
  | Thrown e => Thrown e
  end.

(** A post of [data.announcements.posts]. *)
Record RawPost := {
  rp_id : string;
  rp_postStatus : string;
  rp_publishDate : JsDate;
  rp_startDate : JsDate;
  rp_title : string;
}.

(** [{ ...post, courseClassId: class_id, metadata }] *)
Record HaloAnnouncement := {
  ha_post : RawPost;
  ha_courseClassId : string;
  ha_metadata : AnnouncementMetadata;
}.

Definition post_is_published (post : RawPost) : bool :=
  bool_decide (rp_postStatus post = "PUBLISHED").

Definition Halo_getClassAnnouncements (request : Completion (Response (list RawPost)))
    (class_id : string) (metadata : AnnouncementMetadata)
    : Completion (list HaloAnnouncement) :=
  match fetched request with
  | Normal posts =>
      Normal (map (fun post => {| ha_post := post; ha_courseClassId := class_id;
                                  ha_metadata := metadata |})
                  (List.filter post_is_published posts))
  | Thrown e => Thrown e
  end.

(** An element of [data.gradeOverview]. *)
Record GradeOverview := { ov_grades : list Grade; ov_finalGrade : string }.

(** [const { grades, finalGrade } = res.body.data.gradeOverview[0];]
    (a TypeError on an empty array) and
    [{ grades: grades.map((grade) => ({ ...grade, metadata })), finalGrade }] *)
Definition Halo_getAllGrades {Md : Type} (request : Completion (Response (list GradeOverview)))
    (metadata : Md) : Completion (list (Grade * Md) * string) :=
  match fetched request with
  | Normal (overview :: _) =>
      Normal (map (fun grade => (grade, metadata)) (ov_grades overview),
              ov_finalGrade overview)
  | Normal [] => Thrown ErrOther
  | Thrown e => Thrown e
  end.

(** An element of [data.getInboxLeftPanelNotification]. *)
Record InboxPanel := { inboxForumCount : list Forum }.

(** [data.getInboxLeftPanelNotification.reduce(
       (acc, { inboxForumCount }) => acc.concat(inboxForumCount), [])] *)
Definition Halo_getUserInbox (request : Completion (Response (list InboxPanel)))
    : Completion (list Forum) :=
  match fetched request with
  | Normal panels => Normal (fold_left (fun acc panel => acc ++ inboxForumCount panel) panels [])
  | Thrown e => Thrown e
  end.

(** The post as the announcements watcher reads it. *)
Definition to_announcement (a : HaloAnnouncement) : Announcement :=
  {| ann_id := rp_id (ha_post a); publishDate := rp_publishDate (ha_post a);
     startDate := rp_startDate (ha_post a); ann_title := rp_title (ha_post a) |}.

(** The grade as the grades watcher reads it. *)
Definition to_grades {Md : Type} (r : list (Grade * Md) * string) : list Grade * string :=
  (map fst r.1, r.2).

Definition on_result {A B} (f : A -> B) (c : Completion A) : Completion B :=
  match c with
  | Normal a => Normal (f a)
  | Thrown e => Thrown e
  end.

(** The collaborators of [base], with the announcements, the grades and the
    inbox forums fetched by the functions above from the answers of the
    requests. *)
Definition halo_env (base : Env)
    (announcements_request : nat -> string -> Cookie -> Completion (Response (list RawPost)))
    (grades_request : nat -> string -> Cookie -> Completion (Response (list GradeOverview)))
    (inbox_request : nat -> Cookie -> Completion (Response (list InboxPanel))) : Env :=
  {| getActiveClasses := getActiveClasses base;
     getActiveUsersInClass := getActiveUsersInClass base;
     getAllActiveUsers := getAllActiveUsers base;
     getUserCookie := getUserCookie base;
     getClassAnnouncements := fun n class_id cookie metadata =>
       on_result (map to_announcement)
         (Halo_getClassAnnouncements (announcements_request n class_id cookie)
                                     class_id metadata);
     getAllGrades := fun n class_slug_id cookie courseCode =>
       on_result to_grades
         (Halo_getAllGrades (grades_request n class_slug_id cookie) courseCode);
     getUserId := getUserId base;
     getGradeFeedback := getGradeFeedback base;
     getUserInbox := fun n cookie => Halo_getUserInbox (inbox_request n cookie);
     getPostsForInboxForum := getPostsForInboxForum base;
     clock := clock base;
     Date_parse := Date_parse base |}.

(** ** HaloService: properties *)

Lemma starts_with_spec (needle s : string) :
  starts_with needle s = true <-> exists suf, s = needle +:+ suf.
Proof.
  revert s. induction needle as [|a needle IH]; intros s; simpl.
  - split; [intros _; now exists s | reflexivity].
  - destruct s as [|b s].
    + split; [discriminate | intros (suf & Hs); discriminate Hs].
    + rewrite andb_true_iff, bool_decide_eq_true, IH. split.
      * intros (-> & suf & ->). now exists suf.
      * intros (suf & [= -> ->]). split; [reflexivity | now exists suf].
Qed.

Lemma starts_with_includes (needle s : string) :
  starts_with needle s = true -> includes needle s = true.
Proof. intros Hs. destruct s; simpl; now rewrite Hs. Qed.

Lemma includes_spec (needle s : string) :
  includes needle s = true <-> exists pre suf, s = pre +:+ needle +:+ suf.
Proof.
  split.
  - induction s as [|c s IH]; simpl; rewrite orb_true_iff, starts_with_spec.
    + intros [(suf & Hs) | Hf]; [|discriminate]. now exists "", suf.
    + intros [(suf & Hs) | Hrest]; [now exists "", suf|].
      destruct (IH Hrest) as (pre & suf & ->). now exists (String c pre), suf.
  - intros (pre & suf & ->). induction pre as [|c pre IH].
    + apply starts_with_includes, starts_with_spec. now exists suf.
    + change (String c pre +:+ needle +:+ suf) with (String c (pre +:+ needle +:+ suf)).
      simpl. apply orb_true_iff. right. exact IH.
Qed.

(** X14: a fetcher throws [{ code: 401 }] exactly when the message of the
    first entry of [res.body.errors] contains the characters 401, anywhere
    in it and whatever [res.error] and [data] are; otherwise an HTTP error
    is thrown as it is, and with neither of the two the data is returned,
    whatever other GraphQL errors the body lists. *)
Theorem X14_unauthorized_by_first_error_message {D : Type} :
  (forall res : Response D, read_response res = Thrown Err401 <-> mentions_401 res = true)
  /\ (forall (err : bool) (data : option D) (pre suf : string) (rest : list GraphQLError),
        read_response
          {| res_error := err;
             res_body := Some {| body_errors :=
                                   Some ({| err_message := Some (pre +:+ "401" +:+ suf) |}
                                         :: rest);
                                 body_data := data |} |}
        = Thrown Err401)
  /\ (forall (res : Response D),
        mentions_401 res = false -> res_error res = true ->
        read_response res = Thrown ErrOther)
  /\ (forall (res : Response D) (errors : option (list GraphQLError)) (d : D),
        mentions_401 res = false -> res_error res = false ->
        res_body res = Some {| body_errors := errors; body_data := Some d |} ->
        read_response res = Normal d).
Proof.
  split; [|split; [|split]].
  - intros res. unfold read_response.
    destruct (mentions_401 res); [now split|].
    destruct (res_error res); [now split|].
    destruct (res_body res) as [[errors [d|]]|]; now split.
  - intros err data pre suf rest. unfold read_response.
    match goal with |- (if ?m then _ else _) = _ => assert (Hm : m = true) end.
    { unfold mentions_401. cbn [res_body body_errors err_message].
      apply includes_spec. eauto. }
    now rewrite Hm.
  - intros res Hm He. unfold read_response. now rewrite Hm, He.
  - intros res errors d Hm He Hb. unfold read_response. now rewrite Hm, He, Hb.
Qed.

Lemma X14_unauthorized_by_first_error_message_witness :
  read_response (D := list RawPost)
    {| res_error := false;
       res_body := Some {| body_errors :=
                             Some [ {| err_message := Some "Variable $id is never used" |};
                                    {| err_message := Some "Request failed: 401" |} ];
                           body_data := Some [] |} |}
  = Normal [].
Proof.
  apply (proj2 (proj2 (proj2 X14_unauthorized_by_first_error_message)) _
           (Some [ {| err_message := Some "Variable $id is never used" |};
                   {| err_message := Some "Request failed: 401" |} ]));
    reflexivity.
Defined.

Lemma filter_published_posts (posts : list RawPost) :
  Forall (fun post => rp_postStatus post = "PUBLISHED") (List.filter post_is_published posts).
Proof.
  apply Forall_forall. intros post Hin. apply list_elem_of_In, filter_In in Hin as [_ Hp].
  now apply bool_decide_eq_true in Hp.
Qed.

(** The announcements a safe fetch resolves to are an answer of the
    announcement fetch for that course. *)
Lemma getClassAnnouncementsSafe_answer (env : Env) class_id users metadata
    (st : State string Announcement) (l : list Announcement) :
  outcome (getClassAnnouncementsSafe env class_id users metadata) st = Normal (Some l) ->
  exists n cookie, getClassAnnouncements env n class_id cookie metadata = Normal l.
Proof.
  revert st. induction users as [|uid users IH]; intros st; [discriminate|].
  simpl. unfold outcome, bind.
  destruct (tryUser env class_id metadata uid st) as [st1 [[l1|]|e]] eqn:Htry; simpl.
  - intros [= <-]. revert Htry. unfold tryUser, try_catch. rewrite bind_await.
    destruct (getUserCookie env _ uid) as [[ck|]|[]]; simpl; try discriminate.
    rewrite bind_await.
    destruct (getClassAnnouncements env _ class_id ck metadata) as [l0|[]] eqn:Hans;
      simpl; try discriminate.
    intros [= _ <-]. eauto.
  - apply IH.
  - discriminate.
Qed.

(** X15: [Halo.getClassAnnouncements] returns the PUBLISHED posts of the
    response, in their order, each with the class id and the metadata it was
    given; and with the announcements fetched through it, the snapshot the
    watcher caches for a course after a resolved fetch holds PUBLISHED posts
    only. *)
Theorem X15_only_published_announcements (request : Completion (Response (list RawPost)))
    (class_id : string) (metadata : AnnouncementMetadata) :
  match Halo_getClassAnnouncements request class_id metadata with
  | Normal l =>
      exists posts,
        fetched request = Normal posts
        /\ map ha_post l = List.filter post_is_published posts
        /\ Forall (fun a => rp_postStatus (ha_post a) = "PUBLISHED"
                            /\ ha_courseClassId a = class_id
                            /\ ha_metadata a = metadata) l
  | Thrown e => fetched request = Thrown e
  end
  /\ (forall base announcements_request grades_request inbox_request course
             (st : State string Announcement) l,
        let env := halo_env base announcements_request grades_request inbox_request in
        getActiveUsersInClass env (length (asked st)) class_id <> [] ->
        snd (course_fetch env class_id course st) = Normal (Some l) ->
        store (exec (announcementsTarget env (class_id, course)) st) !! class_id
        = Some (Some l)
        /\ Forall (fun a => exists post,
                     rp_postStatus post = "PUBLISHED"
                     /\ a = to_announcement {| ha_post := post; ha_courseClassId := class_id;
                                               ha_metadata := course_metadata course |}) l).
Proof.
  split.
  - unfold Halo_getClassAnnouncements.
    destruct (fetched request) as [posts|e]; [|reflexivity].
    exists posts. split; [reflexivity|]. split.
    + rewrite map_map. simpl. apply map_id.
    + apply Forall_forall. intros a Ha. apply list_elem_of_In, in_map_iff in Ha
        as (post & <- & Hpost). simpl. repeat split.
      apply filter_In in Hpost as [_ Hp]. now apply bool_decide_eq_true in Hp.
  - intros base announcements_request grades_request inbox_request course st l env
           Husers Hfetch. split.
    + rewrite (announcements_fetched_store env class_id course st l Husers Hfetch).
      apply lookup_insert_eq.
    + unfold course_fetch in Hfetch.
      destruct (getClassAnnouncementsSafe_answer env class_id _ _ _ l Hfetch)
        as (n & cookie & Hans).
      simpl in Hans. unfold Halo_getClassAnnouncements in Hans.
      destruct (fetched (announcements_request n class_id cookie)) as [posts|e];
        [|discriminate]. simpl in Hans. injection Hans as <-.
      apply Forall_forall. intros a Ha.
      apply list_elem_of_In, in_map_iff in Ha as (h & <- & Hh).
      apply in_map_iff in Hh as (post & <- & Hpost).
      exists post. split; [|reflexivity].
      apply filter_In in Hpost as [_ Hp]. now apply bool_decide_eq_true in Hp.
Qed.

Definition raw_published : RawPost :=
  {| rp_id := "2"; rp_postStatus := "PUBLISHED";
     rp_publishDate := DateString "2024-01-02T23:00:00.000Z";
     rp_startDate := DateUndefined; rp_title := "fresh" |}.
Definition raw_draft : RawPost :=
  {| rp_id := "7"; rp_postStatus := "DRAFT"; rp_publishDate := DateNull;
     rp_startDate := DateNull; rp_title := "not yet" |}.

Definition ok_response {D : Type} (d : D) : Response D :=
  {| res_error := false; res_body := Some {| body_errors := None; body_data := Some d |} |}.

(** The remote serves one draft and one published announcement, no grade
    overview, and two inbox panels. *)
Definition example_halo_env : Env :=
  halo_env success_env
    (fun _ _ _ => Normal (ok_response [raw_draft; raw_published]))
    (fun _ _ _ => Normal (ok_response []))
    (fun _ _ => Normal (ok_response [ {| inboxForumCount := [forum_1] |};
                                      {| inboxForumCount := [] |};
                                      {| inboxForumCount := [forum_2] |} ])).

Lemma X15_only_published_announcements_witness :
  store (exec (announcementsTarget example_halo_env ("c1", example_course))
              (initial_state [])) !! "c1"
  = Some (Some [ann_1h]).
Proof.
  refine (proj1 (proj2 (X15_only_published_announcements
                          (Normal (ok_response [raw_draft; raw_published])) "c1"
                          (course_metadata example_course))
                       success_env _ _ _ example_course (initial_state []) [ann_1h] _ _));
    [discriminate | reflexivity].
Defined.

(** X16: [Halo.getAllGrades] reads the first entry of [gradeOverview] only:
    its grades, in their order, each with the metadata, and its final grade;
    on an empty [gradeOverview] it throws, not with code 401, and the grades
    watcher then logs an error for the user and leaves cache, files, events
    and reports as they are. *)
Theorem X16_grades_of_first_overview {Md : Type} (md : Md) :
  (forall overview rest,
     Halo_getAllGrades (Normal (ok_response (overview :: rest))) md
     = Normal (map (fun grade => (grade, md)) (ov_grades overview), ov_finalGrade overview))
  /\ Halo_getAllGrades (Normal (ok_response [])) md = Thrown ErrOther
  /\ (forall base announcements_request grades_request inbox_request
             course_id course uid cookie (st : State (string * string) Grade),
        let env := halo_env base announcements_request grades_request inbox_request in
        getUserCookie env (length (asked st)) uid = Normal (Some cookie) ->
        grades_request (S (length (asked st))) (slugId course) cookie
        = Normal (ok_response []) ->
        let st' := exec (gradesTarget env course_id course uid) st in
        untouched st st'
        /\ reported st' = reported st
        /\ logged st' = logged st ++ [LogError uid]).
Proof.
  split; [reflexivity|]. split; [reflexivity|].
  intros base announcements_request grades_request inbox_request course_id course uid
         cookie st env Hck Hreq.
  cbv zeta. unfold exec, gradesTarget, try_catch, gradesBody.
  rewrite bind_await, Hck, bind_gets, bind_await. simpl length.
  rewrite length_app, Nat.add_1_r. simpl getAllGrades. rewrite Hreq. simpl.
  now repeat split.
Qed.

Lemma X16_grades_of_first_overview_witness :
  let st : State (string * string) Grade :=
    initial_state [(("c1", "u1"), Some [grade_1])] in
  let st' := exec (gradesTarget example_halo_env "c1" example_course "u1") st in
  untouched st st' /\ reported st' = [] /\ logged st' = [LogError "u1"].
Proof.
  intros st.
  apply (proj2 (proj2 (X16_grades_of_first_overview "CST-101")) success_env
           (fun _ _ _ => Normal (ok_response [raw_draft; raw_published]))
           (fun _ _ _ => Normal (ok_response []))
           (fun _ _ => Normal (ok_response [ {| inboxForumCount := [forum_1] |};
                                             {| inboxForumCount := [] |};
                                             {| inboxForumCount := [forum_2] |} ]))
           "c1" example_course "u1" "cookie-of-u1" st); reflexivity.
Defined.

Lemma fold_left_app_concat {X Y} (f : X -> list Y) (l : list X) (acc : list Y) :
  fold_left (fun acc x => acc ++ f x) l acc = acc ++ concat (map f l).
Proof.
  revert acc. induction l as [|x l IH]; intros acc; simpl.
  - now rewrite app_nil_r.
  - now rewrite IH, app_assoc.
Qed.

(** X17: [Halo.getUserInbox] returns the forums of all the panels of the
    response, panel after panel and in each panel's order, none lost and none
    added; a rejected request, a 401 or an HTTP error is thrown before any
    forum is read. *)
Theorem X17_inbox_forums_of_all_panels (request : Completion (Response (list InboxPanel))) :
  match fetched request with
  | Normal panels =>
      Halo_getUserInbox request = Normal (concat (map inboxForumCount panels))
      /\ forall forum, forum ∈ concat (map inboxForumCount panels)
                       <-> exists panel, panel ∈ panels /\ forum ∈ inboxForumCount panel
  | Thrown e => Halo_getUserInbox request = Thrown e
  end.
Proof.
  unfold Halo_getUserInbox. destruct (fetched request) as [panels|e]; [|reflexivity].
  split; [now rewrite fold_left_app_concat|].
  intros forum. rewrite list_elem_of_In, in_concat. split.
  - intros (l & Hl & Hf). apply in_map_iff in Hl as (panel & <- & Hp).
    exists panel. split; now apply list_elem_of_In.
  - intros (panel & Hp & Hf). exists (inboxForumCount panel). split.
    + apply in_map. now apply list_elem_of_In.
    + now apply list_elem_of_In.
Qed.

(** * FirebaseService *)

(** ** [getUserCookie] *)

Section GetUserCookie.
(** The cookie objects; a JS value that may be [undefined] or [null] is an
    [option]. [isValidCookieObject] and [decryptCookieObject] are not among
    the sources: they are taken as they are. *)
Context {C : Type}.
Variable isValidCookieObject : option C -> bool.
Variable decryptCookieObject : option C -> option C.

(** The [catch] block: the cookie of the database, decrypted when valid. *)
Definition cookie_from_db (db : Completion (option C)) : Completion (option C) :=
  match db with
  | Thrown e => Thrown e
  | Normal cookie =>
      if negb (isValidCookieObject cookie) then Normal None
      else Normal (decryptCookieObject cookie)
  end.

(** [getUserCookie(uid, check_cache)], [cached] being [COOKIES.get(uid)] and
    [db] the answer of [db.ref('cookies').child(uid).get()]. The first
    component tells whether the database was read. The [try] block throws to
    reach the [catch] block, which reads the database. *)
Definition Firebase_getUserCookie (cached : option C) (db : Completion (option C))
    (check_cache : bool) : bool * Completion (option C) :=
  if negb check_cache then (true, cookie_from_db db)
  else if isValidCookieObject cached then (false, Normal cached)
  else (true, cookie_from_db db).

(** X18: the database is read exactly when the cache is not to be checked or
    holds no valid cookie; a valid cached cookie is returned as it is, not
    decrypted; after a read of the database an invalid cookie gives [null], a
    valid one is decrypted and a rejected read is thrown; with [check_cache]
    false the cached cookie has no influence. *)
Theorem X18_cookie_cache_before_database (cached : option C) (db : Completion (option C))
    (check_cache : bool) :
  let r := Firebase_getUserCookie cached db check_cache in
  (r.1 = false <-> check_cache = true /\ isValidCookieObject cached = true)
  /\ (r.1 = false -> r.2 = Normal cached)
  /\ (r.1 = true ->
      r.2 = match db with
            | Thrown e => Thrown e
            | Normal cookie =>
                if isValidCookieObject cookie then Normal (decryptCookieObject cookie)
                else Normal None
            end)
  /\ (forall cached', Firebase_getUserCookie cached' db false
                      = Firebase_getUserCookie cached db false).
Proof.
  unfold Firebase_getUserCookie, cookie_from_db.
  destruct check_cache; simpl.
  - destruct (isValidCookieObject cached) eqn:Hvalid; simpl.
    + repeat split; try discriminate; tauto.
    + repeat split; try discriminate; try tauto.
      * intros [_ Hd]. discriminate Hd.
      * intros _. destruct db as [cookie|e]; [|reflexivity].
        now destruct (isValidCookieObject cookie).
  - repeat split; try discriminate; try tauto.
    + intros [Hd _]. discriminate Hd.
    + intros _. destruct db as [cookie|e]; [|reflexivity].
      now destruct (isValidCookieObject cookie).
Qed.
End GetUserCookie.

(** ** [getActiveClasses] *)

Section ObjectAssign.
Context {V : Type}.

(** A JS object as the list of its entries, in the order of [Object.entries]
    (keys that are not array indices keep the order of their insertion). *)
Definition obj_get (k : string) (obj : list (string * V)) : option V :=
  snd <$> List.find (fun entry => bool_decide (entry.1 = k)) obj.

(** [obj[k] = v]: replaces the value in place or adds the key at the end. *)
Fixpoint obj_set (k : string) (v : V) (obj : list (string * V)) : list (string * V) :=
  match obj with
  | [] => [(k, v)]
  | (k', v') :: rest =>
      if bool_decide (k' = k) then (k, v) :: rest else (k', v') :: obj_set k v rest
  end.

(** [Object.assign(acc, src)]; a [null] source is ignored. *)
Definition Object_assign (acc : list (string * V)) (src : option (list (string * V)))
    : list (string * V) :=
  match src with
  | Some entries => fold_left (fun acc entry => obj_set entry.1 entry.2 acc) entries acc
  | None => acc
  end.

(** The [reduce] of [getActiveClasses] over the values of the snapshots that
    [Promise.all] resolved to, one per stage:
    [.reduce((acc, cur) => Object.assign(acc, cur.val()), {})] *)
Definition merge_stages (vals : list (option (list (string * V)))) : list (string * V) :=
  fold_left Object_assign vals [].

Lemma obj_get_set (k k' : string) (v : V) (obj : list (string * V)) :
  obj_get k (obj_set k' v obj) = if bool_decide (k = k') then Some v else obj_get k obj.
Proof.
  unfold obj_get. induction obj as [|[k0 v0] obj IH]; simpl.
  - repeat case_bool_decide; simpl; congruence.
  - repeat (case_bool_decide; simpl in *); subst; congruence.
Qed.

Lemma obj_set_keys (k : string) (v : V) (obj : list (string * V)) :
  map fst (obj_set k v obj) = if bool_decide (k ∈ map fst obj) then map fst obj
                              else map fst obj ++ [k].
Proof.
  induction obj as [|[k0 v0] obj IH]; simpl.
  - reflexivity.
  - destruct (bool_decide_reflect (k0 = k)) as [->|Hk0]; simpl.
    + rewrite bool_decide_eq_true_2; [reflexivity | left].
    + rewrite IH. destruct (bool_decide_reflect (k ∈ map fst obj)) as [Hin|Hin].
      * rewrite bool_decide_eq_true_2; [reflexivity | now right].
      * rewrite bool_decide_eq_false_2; [reflexivity|].
        rewrite not_elem_of_cons. split; congruence.
Qed.

Lemma obj_set_NoDup (k : string) (v : V) (obj : list (string * V)) :
  NoDup (map fst obj) -> NoDup (map fst (obj_set k v obj)).
Proof.
  intros Hnd. rewrite obj_set_keys.
  case_bool_decide as Hnin; [exact Hnd|].
  apply NoDup_app. repeat split; [exact Hnd | | apply NoDup_singleton].
  intros x Hx Hk. apply list_elem_of_singleton in Hk as ->. contradiction.
Qed.

Lemma Object_assign_NoDup acc src :
  NoDup (map fst acc) -> NoDup (map fst (Object_assign acc src)).
Proof.
  destruct src as [entries|]; [|trivial]. simpl. revert acc.
  induction entries as [|[k v] entries IH]; intros acc Hnd; [exact Hnd|].
  simpl. apply IH. now apply obj_set_NoDup.
Qed.

Lemma Object_assign_get k acc entries :
  obj_get k (Object_assign acc (Some entries))
  = match obj_get k (rev entries) with
    | Some v => Some v
    | None => obj_get k acc
    end.
Proof.
  simpl. revert acc. induction entries as [|[k0 v0] entries IH]; intros acc; [reflexivity|].
  simpl fold_left. rewrite IH. simpl rev.
  assert (Happ : forall l1 l2 : list (string * V),
            obj_get k (l1 ++ l2)
            = match obj_get k l1 with Some v => Some v | None => obj_get k l2 end).
  { intros l1 l2. unfold obj_get. induction l1 as [|[k1 v1] l1 IH1]; [reflexivity|].
    simpl. destruct (bool_decide (k1 = k)); [reflexivity | exact IH1]. }
  rewrite Happ, obj_get_set.
  destruct (obj_get k (rev entries)); [reflexivity|].
  unfold obj_get. simpl.
  repeat (case_bool_decide; simpl); subst; congruence.
Qed.

Lemma merge_stages_snoc vals src :
  merge_stages (vals ++ [src]) = Object_assign (merge_stages vals) src.
Proof. unfold merge_stages. now rewrite fold_left_app. Qed.

(** X19: [getActiveClasses] lists every class once, even when several
    stages deliver it; a class is listed exactly when a stage delivers it,
    and with the value of the last stage that does; a stage whose value is
    [null] contributes nothing. *)
Theorem X19_active_classes_merged (vals : list (option (list (string * V)))) :
  NoDup (map fst (merge_stages vals))
  /\ (forall src k,
        obj_get k (merge_stages (vals ++ [src]))
        = match src with
          | Some entries =>
              match obj_get k (rev entries) with
              | Some v => Some v
              | None => obj_get k (merge_stages vals)
              end
          | None => obj_get k (merge_stages vals)
          end)
  /\ merge_stages (vals ++ [None]) = merge_stages vals
  /\ (forall k, obj_get k (merge_stages []) = None).
Proof.
  split; [|split; [|split]].
  - unfold merge_stages.
    assert (Hgen : forall acc, NoDup (map fst acc) ->
                     NoDup (map fst (fold_left Object_assign vals acc))).
    { induction vals as [|src vals IH]; intros acc Hnd; [exact Hnd|].
      simpl. apply IH. now apply Object_assign_NoDup. }
    apply Hgen. constructor.
  - intros src k. rewrite merge_stages_snoc.
    destruct src as [entries|]; [apply Object_assign_get | reflexivity].
  - apply merge_stages_snoc.
  - reflexivity.
Qed.
End ObjectAssign.

(** * The bot: [formatTimestamp] *)

From stdpp Require Import pretty.

(** [x | 0] for an integer [x]: the 32-bit two's complement reading. *)
Definition ToInt32 (x : Z) : Z := ((x + 2 ^ 31) mod 2 ^ 32 - 2 ^ 31)%Z.

(** [`<t:${(timestamp / 1000) | 0}:${letter}>`] for a timestamp that is an
    integer number of milliseconds, as [Date.now()] gives it. The quotient is
    truncated toward zero by [| 0]; below 2^53 milliseconds the rounding of
    the division cannot reach the next integer, so the truncated quotient is
    the integer quotient. *)
Definition formatTimestamp (timestamp : Z) (letter : string) : string :=
  "<t:" +:+ pretty (ToInt32 (Z.quot timestamp 1000)) +:+ ":" +:+ letter +:+ ">".

(** X20: up to 2038-01-19T03:14:07.999Z a timestamp is shown as its whole
    seconds; from 2038-01-19T03:14:08Z on, for 2^31 more seconds, the 32-bit
    reading wraps and the seconds shown are negative, 2^32 less than the
    timestamp's. *)
Theorem X20_formatTimestamp_wraps_in_2038 (timestamp : Z) (letter : string) :
  ((0 <= timestamp < 2 ^ 31 * 1000)%Z ->
   formatTimestamp timestamp letter
   = "<t:" +:+ pretty (timestamp / 1000)%Z +:+ ":" +:+ letter +:+ ">")
  /\ ((2 ^ 31 * 1000 <= timestamp < 2 ^ 32 * 1000)%Z ->
      formatTimestamp timestamp letter
      = "<t:" +:+ pretty (timestamp / 1000 - 2 ^ 32)%Z +:+ ":" +:+ letter +:+ ">"
      /\ (timestamp / 1000 - 2 ^ 32 < 0)%Z).
Proof.
  unfold formatTimestamp, ToInt32. split; intros Hrange.
  - rewrite Z.quot_div_nonneg by lia.
    replace ((timestamp / 1000 + 2 ^ 31) mod 2 ^ 32 - 2 ^ 31)%Z with (timestamp / 1000)%Z;
      [reflexivity|].
    assert (0 <= timestamp / 1000 < 2 ^ 31)%Z
      by (split; [apply Z.div_pos; lia | apply Z.div_lt_upper_bound; lia]).
    rewrite Z.mod_small by lia. lia.
  - rewrite Z.quot_div_nonneg by lia.
    assert (Hq : (2 ^ 31 <= timestamp / 1000 < 2 ^ 32)%Z)
      by (split; [apply Z.div_le_lower_bound; lia | apply Z.div_lt_upper_bound; lia]).
    replace ((timestamp / 1000 + 2 ^ 31) mod 2 ^ 32 - 2 ^ 31)%Z
      with (timestamp / 1000 - 2 ^ 32)%Z; [split; [reflexivity | lia]|].
    replace (timestamp / 1000 + 2 ^ 31)%Z
      with ((timestamp / 1000 - 2 ^ 31) + 1 * 2 ^ 32)%Z by lia.
    rewrite Z.mod_add by lia. rewrite Z.mod_small by lia. lia.
Qed.

Lemma X20_formatTimestamp_wraps_in_2038_witness :
  formatTimestamp example_now "D" = "<t:1704240000:D>"
  /\ formatTimestamp 2147483648000 "R" = "<t:-2147483648:R>".
Proof.
  split.
  - rewrite (proj1 (X20_formatTimestamp_wraps_in_2038 example_now "D"));
      [reflexivity | unfold example_now; lia].
  - assert (Hrange : (2 ^ 31 * 1000 <= 2147483648000 < 2 ^ 32 * 1000)%Z) by lia.
    rewrite (proj1 (proj2 (X20_formatTimestamp_wraps_in_2038 2147483648000 "R") Hrange)).
    reflexivity.
Defined.

(** * Events and persistence *)

(** The body for one course, when the log line of the safe fetch throws. *)
Lemma announcementsBody_fetch_thrown (env : Env) class_id course
    (st : State string Announcement) e :
  getActiveUsersInClass env (length (asked st)) class_id <> [] ->
  snd (course_fetch env class_id course st) = Thrown e ->
  announcementsBody env class_id course st
  = (fst (course_fetch env class_id course st), Thrown e).
Proof.
  intros Husers Hfetch. unfold announcementsBody. rewrite bind_ask.
  destruct (getActiveUsersInClass env (length (asked st)) class_id) as [|u us] eqn:Hu;
    [congruence|].
  change (Nat.eqb (length (u :: us)) 0) with false. cbv iota.
  rewrite bind_gets.
  unfold course_fetch in *. rewrite Hu in *. fold (course_metadata course).
  now rewrite (bind_thrown _ _ _ e) by exact Hfetch.
Qed.

(** X21: a target's turn emits an event only after it has written the new
    snapshot to the target's file: whenever the events grew during the turn,
    exactly one file was written in it, the target's. *)
Theorem X21_no_event_without_a_write (env : Env) :
  (forall class_id course (st : State string Announcement),
     let st' := exec (announcementsTarget env (class_id, course)) st in
     emitted st' = emitted st \/ exists data, disk st' = disk st ++ [(class_id, data)])
  /\ (forall course_id course uid (st : State (string * string) Grade),
        let st' := exec (gradesTarget env course_id course uid) st in
        emitted st' = emitted st
        \/ exists data, disk st' = disk st ++ [(grades_path course_id uid, data)])
  /\ (forall uid cookie forum (st : State (string * string) Post),
        let st' := exec (inboxForum env uid cookie forum) st in
        emitted st' = emitted st
        \/ exists data, disk st' = disk st ++ [(inbox_path uid forum, data)]).
Proof.
  split; [|split].
  - intros class_id course st. cbv zeta.
    destruct (getActiveUsersInClass env (length (asked st)) class_id) as [|u us] eqn:Husers.
    { left. unfold exec, announcementsTarget, try_catch, announcementsBody.
      now rewrite bind_ask, Husers. }
    assert (Hne : getActiveUsersInClass env (length (asked st)) class_id <> [])
      by (rewrite Husers; discriminate).
    destruct (course_fetch_untouched env class_id course st) as (_ & Hd & He).
    destruct (snd (course_fetch env class_id course st)) as [r|e] eqn:Hfetch.
    2:{ left. unfold exec, announcementsTarget, try_catch.
        rewrite (announcementsBody_fetch_thrown env class_id course st e Hne Hfetch).
        now destruct e. }
    unfold exec, announcementsTarget, try_catch.
    rewrite (announcementsBody_run env class_id course st r Hne Hfetch).
    cbv zeta. unfold_effects. rewrite bind_modify.
    destruct (get_or_null class_id st) as [old_l|], r as [l|]; simpl.
    + destruct (Nat.eqb (length l) (length old_l)); [left; exact He|].
      right. rewrite !bind_modify, emitAnnouncements_run. simpl. rewrite Hd. eauto.
    + rewrite Nat.eqb_refl. left. exact He.
    + left. exact He.
    + left. exact He.
  - intros course_id course uid st. cbv zeta.
    destruct (getUserCookie env (length (asked st)) uid) as [[cookie|]|e] eqn:Hck.
    + destruct (getAllGrades env (S (length (asked st))) (slugId course) cookie
                  (courseCode course)) as [[grades finalGrade]|e] eqn:Hfetch.
      * unfold exec, gradesTarget, try_catch.
        rewrite (gradesBody_run env course_id course uid st cookie grades finalGrade
                   Hck Hfetch).
        cbv zeta.
        destruct (get_default (course_id, uid) None st) as [old_l|]; [|now left].
        destruct (Nat.eqb _ _); [now left|]. right.
        match goal with |- context [for_of ?items ?body ?s] =>
          pose proof (emitGrades_cache_kept env course uid cookie finalGrade items s)
            as [_ Hdisk];
          unfold exec in Hdisk; destruct (for_of items body s) as [s4 [[]|[]]] eqn:Hrun
        end; unfold exec in Hrun; rewrite Hrun in Hdisk; simpl in Hdisk; simpl;
          rewrite Hdisk; eauto.
      * left. apply (grades_failed_fetch env course_id course uid st cookie e Hck Hfetch).
    + left. apply (grades_no_cookie env course_id course uid st Hck).
    + left. apply (grades_failed_cookie env course_id course uid st e Hck).
  - intros uid cookie forum st. cbv zeta. unfold exec. rewrite inboxForum_run. cbv zeta.
    destruct (inbox_fetch_skipped _ _); [now left|].
    destruct (getPostsForInboxForum env _ cookie (forumId forum)) as [posts|e]; [|now left].
    destruct (get_default (uid, forumId forum) None st) as [old_l|]; [|now left].
    destruct (Nat.eqb _ _); [now left|].
    right. rewrite emitPosts_run. simpl. eauto.
Qed.
